(** * fty-discovery-ng: scan orchestration and protocol probing

    A shallow embedding of [server/src/jobs/protocols.cpp] and
    [server/src/jobs/auto-discovery.cpp].

    Conventions of the embedding:
    - [Expected A] is [fty::Expected<A>]: a value or an error message.
    - Network and system calls are answered by an oracle record ([Net],
      [Environment]); every call a probe makes is also logged in a trace
      of [Event]s, so that "which calls were made" is a statement about
      the model.
    - Unsigned machine integers are [Z] with the wrap-around written out
      ([wrap]). *)

From Stdlib Require Import ZArith List String Ascii Bool Lia QArith Qround.
Import ListNotations.
Local Open Scope string_scope.
Local Open Scope Z_scope.
Local Open Scope list_scope.

(* ===================================================================== *)
(** ** Common definitions *)

Inductive Expected (A : Type) : Type :=
| Ok (a : A)
| Unexpected (msg : string).
Arguments Ok {A} a.
Arguments Unexpected {A} msg.

(** [if (auto res = f(...))]: the boolean view of an [Expected]. *)
Definition is_ok {A} (e : Expected A) : bool :=
  match e with Ok _ => true | Unexpected _ => false end.

(** Concatenation of messages. *)
Infix "+++" := String.append (at level 60, right associativity).

(** An unsigned [bits]-wide integer keeps the low [bits] bits. *)
Definition wrap (bits z : Z) : Z := z mod 2 ^ bits.

(** Sequential code over a mutable state [S]: a computation returns its
    value and the state it leaves. *)
Definition St (S A : Type) : Type := S -> A * S.

Definition ret {S A} (a : A) : St S A := fun s => (a, s).

Definition bind {S A B} (m : St S A) (k : A -> St S B) : St S B :=
  fun s => let (a, s') := m s in k a s'.

Declare Scope st_scope.
Delimit Scope st_scope with st.
Notation "x <- m ;; k" := (bind m (fun x => k))
  (at level 61, m at next level, right associativity) : st_scope.
Notation "m ;; k" := (bind m (fun _ => k))
  (at level 61, right associativity) : st_scope.
Local Open Scope st_scope.

Definition get {S} : St S S := fun s => (s, s).
Definition modify {S} (f : S -> S) : St S unit := fun s => (tt, f s).

(** [for (auto& x : l) body(x);] *)
Fixpoint for_each {S A} (l : list A) (body : A -> St S unit) : St S unit :=
  match l with
  | [] => ret tt
  | x :: l' => body x ;; for_each l' body
  end.

(* ===================================================================== *)
(** ** protocols.cpp *)

Module Protocols.

(** [commands::protocols::Return::Available], as far as the code names
    its values. *)
Inductive Available := Yes | No | Maybe.

(** One element of [commands::protocols::Out].  [available] is [None]
    while the code has not assigned the field. *)
Record Return := mkReturn {
  protocol  : string;
  port      : Z;
  reachable : bool;
  available : option Available
}.

Definition Out := list Return.

(** [commands::protocols::In]: the address and the optional list of
    candidate protocols. *)
Record In := mkIn {
  address   : string;
  protocols : list string
}.

(** [enum class Type] *)
Inductive Type_ := Powercom | Xml | Snmp.

(** [impl::ProductInfo], the fields [tryXmlPdc] reads. *)
Record ProductInfo := mkProductInfo {
  name        : string;
  pi_protocol : string;
  summary_url : string
}.

(** What the probe does to the outside world. *)
Inductive Event :=
| EvPing (addr : string)
| EvHttpGet (scheme addr : string) (port : Z) (path : string)
| EvGetaddrinfo (addr : string) (port : Z)
| EvFreeaddrinfo
| EvSocket
| EvConnect
| EvPoll
| EvGetsockopt
| EvWrite (i : nat)
| EvClose.

(** The answers of the network and of the C library. *)
Record Net := mkNet {
  (** [available(address)] of impl/ping.h *)
  ping : string -> bool;
  (** [neon::Neon(scheme, address, port).get(path)] *)
  neon_get : string -> string -> Z -> string -> Expected string;
  (** [YAML::Load(content)["device-type"].as<std::string>()]; the error is
      the message of the exception thrown. *)
  yaml_device_type : string -> Expected string;
  (** [impl::XmlPdc("http", address, port).get<ProductInfo>("product.xml")] *)
  xml_product : string -> Z -> Expected ProductInfo;
  (** [impl::XmlPdc(...).get<Properties>(url)] *)
  xml_properties : string -> Z -> string -> Expected unit;
  (** [getaddrinfo]: the return code, 0 on success *)
  sys_getaddrinfo : string -> Z -> Z;
  gai_strerror : Z -> string;
  (** [socket]: the descriptor (or -1) and the errno it leaves *)
  sys_socket : string -> Z -> Z * Z;
  (** [connect]: return value and errno *)
  sys_connect : string -> Z -> Z * Z;
  (** [poll]: return value *)
  sys_poll : string -> Z -> Z;
  (** [getsockopt(SO_ERROR)]: return value and the option value *)
  sys_getsockopt : string -> Z -> Z * Z;
  (** [write(sock, "X", 1)] at the i-th iteration of the loop *)
  sys_write : string -> Z -> nat -> Z;
  strerror : Z -> string
}.

(** State threaded through a probe: the calls made so far and [errno]. *)
Record World := mkWorld {
  trace : list Event;
  errno : Z
}.

Definition IO (A : Type) : Type := St World A.

Definition emit (e : Event) : IO unit :=
  fun w => (tt, mkWorld (trace w ++ [e]) (errno w)).

Definition set_errno (e : Z) : IO unit :=
  fun w => (tt, mkWorld (trace w) e).

Definition get_errno : IO Z := fun w => (errno w, w).

(** The two [errno] values [timeoutConnect] names (Linux). *)
Definition EINPROGRESS : Z := 115.
Definition ETIMEDOUT : Z := 110.

Definition fake_address : string := "__fake__".

(** [Protocols::tryXmlPdc] *)
Definition tryXmlPdc (net : Net) (i : In) (port : Z) : IO (Expected unit) :=
  emit (EvHttpGet "http" (address i) port "product.xml") ;;
  match xml_product net (address i) port with
  | Ok prod =>
      if negb ((name prod =? "Network Management Card")%string
               || (name prod =? "HPE UPS Network Module")%string)
      then ret (Unexpected "unsupported card type")
      else if (pi_protocol prod =? "XML.V4")%string
      then ret (Unexpected "unsupported XML.V4")
      else
        emit (EvHttpGet "http" (address i) port (summary_url prod)) ;;
        match xml_properties net (address i) port (summary_url prod) with
        | Ok _ => ret (Ok tt)
        | Unexpected e => ret (Unexpected e)
        end
  | Unexpected e => ret (Unexpected e)
  end.

Definition powercom_path : string := "etn/v1/comm/services/powerdistributions1".

(** [Protocols::tryPowercom] *)
Definition tryPowercom (net : Net) (i : In) (port : Z) : IO (Expected unit) :=
  emit (EvHttpGet "https" (address i) port powercom_path) ;;
  match neon_get net "https" (address i) port powercom_path with
  | Ok content =>
      match yaml_device_type net content with
      | Ok deviceType =>
          if (deviceType =? "ups")%string then ret (Ok tt)
          else if (deviceType =? "ats")%string then ret (Ok tt)
          else ret (Unexpected ("not supported device (" +++ deviceType +++ ")"))
      | Unexpected what =>
          ret (Unexpected ("not supported device (" +++ what +++ ")"))
      end
  | Unexpected e => ret (Unexpected e)
  end.

(** [timeoutConnect]: only a failing [poll] is an error.  The answers of
    [poll] (and of [write]) carry no [errno]: after a failing [poll] the
    model keeps the [errno] of [connect]. *)
Definition timeoutConnect (net : Net) (addr : string) (port : Z)
  : IO (Expected unit) :=
  emit EvConnect ;;
  let (r, e) := sys_connect net addr port in
  (if r =? 0 then ret tt else set_errno e) ;;
  en <- get_errno ;;
  if negb (r =? 0) && (en =? EINPROGRESS) then
    emit EvPoll ;;
    let pr := sys_poll net addr port in
    if pr =? 1 then
      emit EvGetsockopt ;;
      let (gr, optval) := sys_getsockopt net addr port in
      (if gr =? 0 then set_errno optval else ret tt) ;;
      ret (Ok tt)
    else if pr =? 0 then
      set_errno ETIMEDOUT ;; ret (Ok tt)
    else ret (Unexpected "poll failed")
  else ret (Ok tt).

(** [const int N = 20;] in [trySnmp] *)
Definition N : nat := 20.

(** The loop [for (int i = 0; i < N; i++)] of [trySnmp], entered at
    iteration [i] with [n] iterations left. *)
Fixpoint write_loop (net : Net) (addr : string) (port : Z) (n i : nat)
  : IO (Expected unit) :=
  match n with
  | O => ret (Ok tt)
  | S n' =>
      emit (EvWrite i) ;;
      if sys_write net addr port i =? -1
      then ret (Unexpected "Socket write failed")
      else write_loop net addr port n' (S i)
  end.

(** [Protocols::trySnmp].  The two [AutoRemove] guards run when the block
    is left: the socket is closed, then the address list is freed. *)
Definition trySnmp (net : Net) (i : In) (port : Z) : IO (Expected unit) :=
  emit (EvGetaddrinfo (address i) port) ;;
  let gr := sys_getaddrinfo net (address i) port in
  if negb (gr =? 0) then ret (Unexpected (gai_strerror net gr))
  else
    emit EvSocket ;;
    let (sock, e) := sys_socket net (address i) port in
    if sock =? -1 then
      set_errno e ;;
      emit EvFreeaddrinfo ;;
      ret (Unexpected (strerror net e))
    else
      c <- timeoutConnect net (address i) port ;;
      match c with
      | Unexpected _ =>
          en <- get_errno ;;
          emit EvClose ;; emit EvFreeaddrinfo ;;
          ret (Unexpected (strerror net en))
      | Ok _ =>
          r <- write_loop net (address i) port N 0 ;;
          emit EvClose ;; emit EvFreeaddrinfo ;;
          ret r
      end.

(** The table [tries] of [Protocols::run], in order of preference. *)
Definition tries : list (Type_ * string * Z) :=
  [ (Powercom, "nut_powercom", 443);
    (Xml,      "nut_xml_pdc",  80);
    (Snmp,     "nut_snmp",     161) ].

(** The body of the loop over [tries]: one appended entry per candidate. *)
Definition probe (net : Net) (i : In) (aux : Type_ * string * Z) : IO Return :=
  let '(ty, protocolStr, p) := aux in
  res <- match ty with
         | Powercom => tryPowercom net i p
         | Xml      => tryXmlPdc net i p
         | Snmp     => trySnmp net i p
         end ;;
  if is_ok res then
    ret (mkReturn protocolStr p true
           (Some match ty with Snmp => Maybe | _ => Yes end))
  else
    ret (mkReturn protocolStr p false (Some No)).

Fixpoint probe_all (net : Net) (i : In) (l : list (Type_ * string * Z))
  (out : Out) : IO Out :=
  match l with
  | [] => ret out
  | aux :: l' =>
      r <- probe net i aux ;;
      probe_all net i l' (out ++ [r])
  end.

(** [Protocols::run].  The [throw Error(...)] is the [Unexpected] result;
    [out] is the list handed in by the caller (empty on a fresh call). *)
Definition run (net : Net) (i : In) (out : Out) : IO (Expected Out) :=
  if (address i =? fake_address)%string then
    let x := mkReturn "nut_snmp" 1234 true None in
    let y := mkReturn "nut_xml_pdc" 4321 false None in
    ret (Ok (out ++ [x] ++ [y]))
  else
    emit (EvPing (address i)) ;;
    if negb (ping net (address i)) then
      ret (Unexpected ("Host is not available: " +++ address i))
    else
      o <- probe_all net i tries out ;;
      ret (Ok o).

Definition world0 : World := mkWorld [] 0.

(** The results and the calls of a probe started in a fresh world. *)
Definition run_result (net : Net) (i : In) : Expected Out :=
  fst (run net i [] world0).

Definition run_trace (net : Net) (i : In) : list Event :=
  trace (snd (run net i [] world0)).

End Protocols.

(** Notions used to state the properties of the probe. *)
Module ProtocolsDefs.
Import Protocols.

(** A network on which the host answers the liveness check, the two HTTP
    probes fail and every system call of the SNMP probe succeeds. *)
Definition udp_only_net : Net :=
  mkNet (fun _ => true)
        (fun _ _ _ _ => Unexpected "connection refused")
        (fun _ => Unexpected "bad yaml")
        (fun _ _ => Unexpected "connection refused")
        (fun _ _ _ => Unexpected "connection refused")
        (fun _ _ => 0)
        (fun _ => "gai error")
        (fun _ _ => (3, 0))
        (fun _ _ => (0, 0))
        (fun _ _ => 1)
        (fun _ _ => (0, 0))
        (fun _ _ _ => 1)
        (fun _ => "error").

(** The same network, except that the sixth write on the socket fails. *)
Definition refusing_net : Net :=
  mkNet (fun _ => true)
        (fun _ _ _ _ => Unexpected "connection refused")
        (fun _ => Unexpected "bad yaml")
        (fun _ _ => Unexpected "connection refused")
        (fun _ _ _ => Unexpected "connection refused")
        (fun _ _ => 0)
        (fun _ => "gai error")
        (fun _ _ => (3, 0))
        (fun _ _ => (0, 0))
        (fun _ _ => 1)
        (fun _ _ => (0, 0))
        (fun _ _ k => if (k =? 5)%nat then -1 else 1)
        (fun _ => "error").

Definition is_write (e : Event) : bool :=
  match e with EvWrite _ => true | _ => false end.

(** The number of writes on the socket in a trace. *)
Definition writes (l : list Event) : nat := List.length (filter is_write l).

(** The set-up of [trySnmp] reaches the write loop: the address resolves,
    the socket is created and [timeoutConnect] does not fail in [poll]. *)
Definition snmp_connected (net : Net) (addr : string) (port : Z) : bool :=
  (sys_getaddrinfo net addr port =? 0)
  && negb (fst (sys_socket net addr port) =? -1)
  && negb (negb (fst (sys_connect net addr port) =? 0)
           && (snd (sys_connect net addr port) =? EINPROGRESS)
           && negb (sys_poll net addr port =? 1)
           && negb (sys_poll net addr port =? 0)).

(** None of the writes [i], ..., [i + n - 1] returns -1. *)
Definition writes_succeed (net : Net) (addr : string) (port : Z) (i n : nat)
  : bool :=
  forallb (fun k => negb (sys_write net addr port k =? -1)) (seq i n).

(** The first call by which [run] attempts a protocol. *)
Definition first_attempt (addr : string) (aux : Type_ * string * Z) : Event :=
  match aux with
  | (Powercom, _, p) => EvHttpGet "https" addr p powercom_path
  | (Xml, _, p)      => EvHttpGet "http" addr p "product.xml"
  | (Snmp, _, p)     => EvGetaddrinfo addr p
  end.

(** [w'] is [w] after some more calls. *)
Definition extends (w w' : World) : Prop :=
  exists evs, trace w' = trace w ++ evs.

End ProtocolsDefs.

(* ===================================================================== *)
(** ** auto-discovery.cpp *)

Module AutoDiscovery.

(** [commands::scan::status::Status], the values the code assigns. *)
Inductive Status := UNKNOWN | IN_PROGRESS | TERMINATED | CANCELLED_BY_USER.

Definition Status_eqb (a b : Status) : bool :=
  match a, b with
  | UNKNOWN, UNKNOWN | IN_PROGRESS, IN_PROGRESS
  | TERMINATED, TERMINATED | CANCELLED_BY_USER, CANCELLED_BY_USER => true
  | _, _ => false
  end.

(** Width of the counters of the status (the progress is assigned through
    [static_cast<uint32_t>]). *)
Definition counter_bits : Z := 32.

(** [m_statusDiscovery] *)
Record StatusDiscovery := mkStatus {
  state      : Status;
  ups        : Z;
  epdu       : Z;
  sts        : Z;
  sensors    : Z;
  discovered : Z;
  progress   : Z
}.

(** [ConfigDiscovery::Discovery::Type]; [OTHER] stands for every value
    that is none of the four the code tests for. *)
Inductive DiscoveryType := LOCAL | IP | MULTI | FULL | OTHER.

Record Link := mkLink {
  src       : string;
  link_type : Z
}.

(** [asset::create::PowerLink] *)
Record PowerLink := mkPowerLink {
  source       : string;
  pl_link_type : Z
}.

Record Discovery := mkDiscovery {
  type      : DiscoveryType;
  ips       : list string;
  scans     : list string;
  protocols : list string;
  documents : list string
}.

Record Aux := mkAux {
  priority : Z;
  parent   : string
}.

(** [commands::scan::start::In] *)
Record StartIn := mkStartIn {
  links     : list Link;
  discovery : Discovery;
  aux       : Aux
}.

(** [commands::assets::Ext]: a sequence of key/value maps, each kept as
    the list of its entries in iteration order. *)
Definition ExtMap := list (string * string).
Definition ExtIn := list ExtMap.

(** [asset::create::MapExtObj] *)
Record MapExtObj := mkMapExtObj {
  value    : string;
  readOnly : bool;
  update   : bool
}.

(** Modelled from the spec: the default-constructed [MapExtObj], whose
    declaration (asset-manager) is outside the sources.  An attribute
    without a [read_only] sibling is writable (section 4.4), and the
    comment in [updateExt] shows ["update": true]. *)
Definition newMapExtObj : MapExtObj := mkMapExtObj "" false true.

(** [asset::create::Ext]: the entries in the order of the [append] calls. *)
Definition ExtOut := list (string * MapExtObj).

Record Sensor := mkSensor {
  s_type    : string;
  s_subtype : string;
  s_ext     : ExtIn
}.

(** One element of [commands::assets::Out]: [asset.asset.type],
    [asset.asset.subtype], [asset.asset.ext] and [asset.sensors]. *)
Record Asset := mkAsset {
  a_type    : string;
  a_subtype : string;
  a_ext     : ExtIn;
  a_sensors : list Sensor
}.

(** [commands::assets::In] *)
Record AssetsIn := mkAssetsIn {
  in_address      : string;
  in_protocol     : string;
  in_port         : Z;
  in_credentialId : string
}.

(** [asset::create::Request] *)
Record Request := mkRequest {
  req_type     : string;
  req_sub_type : string;
  req_status   : Z;
  req_priority : Z;
  req_linked   : list PowerLink;
  req_parent   : string;
  req_ext      : ExtOut
}.

(** [fty::ThreadPool], as far as [start] and [stop] use it: the addresses
    whose scan task was pushed, in order, and whether a stop was asked. *)
Record ThreadPool := mkPool {
  tasks   : list string;
  stopped : bool
}.

(** The members of [class AutoDiscovery], and the number of detached
    scan-check threads it has started. *)
Record AutoDiscovery := mkAD {
  m_statusDiscovery    : StatusDiscovery;
  m_params             : StartIn;
  m_listIpAddress      : list string;
  m_listIpAddressNb    : Z;
  m_listIpAddressCount : Z;
  m_defaultValuesLinks : list PowerLink;
  m_poolScan           : ThreadPool;
  scanCheckThreads     : nat
}.

Definition set_status (f : StatusDiscovery -> StatusDiscovery)
  (ad : AutoDiscovery) : AutoDiscovery :=
  mkAD (f (m_statusDiscovery ad)) (m_params ad) (m_listIpAddress ad)
       (m_listIpAddressNb ad) (m_listIpAddressCount ad)
       (m_defaultValuesLinks ad) (m_poolScan ad) (scanCheckThreads ad).

Definition set_params (p : StartIn) (ad : AutoDiscovery) : AutoDiscovery :=
  mkAD (m_statusDiscovery ad) p (m_listIpAddress ad)
       (m_listIpAddressNb ad) (m_listIpAddressCount ad)
       (m_defaultValuesLinks ad) (m_poolScan ad) (scanCheckThreads ad).

Definition set_listIpAddress (l : list string) (ad : AutoDiscovery)
  : AutoDiscovery :=
  mkAD (m_statusDiscovery ad) (m_params ad) l
       (m_listIpAddressNb ad) (m_listIpAddressCount ad)
       (m_defaultValuesLinks ad) (m_poolScan ad) (scanCheckThreads ad).

Definition set_counts (nb count : Z) (ad : AutoDiscovery) : AutoDiscovery :=
  mkAD (m_statusDiscovery ad) (m_params ad) (m_listIpAddress ad)
       nb count
       (m_defaultValuesLinks ad) (m_poolScan ad) (scanCheckThreads ad).

Definition set_links (l : list PowerLink) (ad : AutoDiscovery)
  : AutoDiscovery :=
  mkAD (m_statusDiscovery ad) (m_params ad) (m_listIpAddress ad)
       (m_listIpAddressNb ad) (m_listIpAddressCount ad)
       l (m_poolScan ad) (scanCheckThreads ad).

Definition set_pool (p : ThreadPool) (ad : AutoDiscovery) : AutoDiscovery :=
  mkAD (m_statusDiscovery ad) (m_params ad) (m_listIpAddress ad)
       (m_listIpAddressNb ad) (m_listIpAddressCount ad)
       (m_defaultValuesLinks ad) p (scanCheckThreads ad).

(** The collaborators of the class and what its header fixes: everything
    the two source files call but do not define. *)
Class Environment := mkEnv {
  (** width in bits of the unsigned members [m_listIpAddressNb] and
      [m_listIpAddressCount] *)
  count_bits : Z;
  (** [address::AddressParser::getRangeIp] *)
  getRangeIp : string -> Expected (list string);
  (** [address::AddressParser::getLocalRangeIp] *)
  getLocalRangeIp : Expected (list string);
  (** [Protocols::getProtocols] *)
  getProtocols : Protocols.In -> Expected Protocols.Out;
  (** [Assets::getAssets]: the candidates written to [outAsset] on success *)
  getAssets : AssetsIn -> Expected (list Asset);
  (** [asset::create::run]: the name of the created asset *)
  create_run : Request -> Expected string;
  (** [isDeviceCentricView()] *)
  isDeviceCentricView : bool;
  (** [AssetStatus::ACTIVE] and [AssetStatus::NONACTIVE] as [uint] *)
  ACTIVE : Z;
  NONACTIVE : Z;
  (** [inet_aton]: the parsed address when it returns 1 *)
  inet_aton : string -> option Z;
  (** [getnameinfo(..., NI_NAMEREQD)]: the name when it returns 0 *)
  getnameinfo : Z -> option string
}.


Section Operations.
Context {env : Environment}.

(** *** updateExt *)

(** The body of the loop over the entries of one input map; the pair is
    the local state ([keyVal], [newMapExtObj]). *)
Definition updateExt_entry (acc : string * MapExtObj) (kv : string * string)
  : string * MapExtObj :=
  let (keyVal, obj) := acc in
  let (key, val) := kv in
  if (key =? "read_only")%string then
    (keyVal, mkMapExtObj (value obj) (if (val =? "true")%string then true else false)
                         (update obj))
  else
    (key, mkMapExtObj val (readOnly obj) (update obj)).

(** The body of the loop over the input maps. *)
Definition updateExt_map (extOut : ExtOut) (it : ExtMap) : ExtOut :=
  let (keyVal, obj) := fold_left updateExt_entry it ("", newMapExtObj) in
  if negb (keyVal =? "")%string then extOut ++ [(keyVal, obj)] else extOut.

(** [AutoDiscovery::updateExt]: the result and [extOut] afterwards. *)
Definition updateExt (extIn : ExtIn) (extOut : ExtOut)
  : Expected unit * ExtOut :=
  (Ok tt, fold_left updateExt_map extIn extOut).

(** *** updateHostName *)

(** [p = strchr(dnsName, '.'); if (p) *p = 0;] *)
Fixpoint cut_at_dot (dnsName : string) : string :=
  match dnsName with
  | EmptyString => EmptyString
  | String c rest =>
      if Ascii.eqb c "."%char then EmptyString else String c (cut_at_dot rest)
  end.

(** [AutoDiscovery::updateHostName]: the result and [ext] afterwards. *)
Definition updateHostName (address : string) (ext : ExtOut)
  : Expected unit * ExtOut :=
  if negb (address =? "")%string then
    match inet_aton address with
    | Some sin_addr =>
        match getnameinfo sin_addr with
        | Some dnsName =>
            let ext1 := ext ++ [("dns.1", mkMapExtObj dnsName false (update newMapExtObj))] in
            let ext2 := ext1 ++ [("hostname",
                                  mkMapExtObj (cut_at_dot dnsName) false
                                              (update newMapExtObj))] in
            (Ok tt, ext2)
        | None =>
            (Unexpected ("No host information retrieved from DNS for " +++ address), ext)
        end
    | None => (Unexpected ("Error during read DNS for " +++ address), ext)
    end
  else (Unexpected "Ip address empty", ext).

(** *** readConfig *)

(** A statement whose value is computed and dropped, such as
    [fty::unexpected("...");] without [return]. *)
Definition discarded {A B} (_ : A) (next : B) : B := next.

(** [for (const auto& ip : ips) m_listIpAddress.push_back(ip);] *)
Definition push_ips (ips : list string) (l : list string) : list string :=
  fold_left (fun acc ip => acc ++ [ip]) ips l.

(** The loop over the ranges: a range that does not expand is logged and
    skipped. *)
Definition push_ranges (ranges : list string) (l : list string) : list string :=
  fold_left (fun acc range =>
               match getRangeIp range with
               | Ok listIp => acc ++ listIp
               | Unexpected _ => acc
               end) ranges l.

Definition default_links (ls : list Link) : list PowerLink :=
  fold_left (fun acc link =>
               if negb (src link =? "0")%string
               then acc ++ [mkPowerLink (src link) (link_type link)]
               else acc) ls [].

(** [AutoDiscovery::readConfig] *)
Definition readConfig (inp : StartIn) (ad : AutoDiscovery)
  : Expected unit * AutoDiscovery :=
  let ad := set_links (default_links (links inp)) ad in
  let d := discovery inp in
  let l :=
    match type d with
    | IP =>
        discarded (if (List.length (ips d) =? 0)%nat
                   then Some (@Unexpected unit "Ips list empty") else None)
                  (push_ips (ips d) [])
    | MULTI =>
        discarded (if (List.length (scans d) =? 0)%nat
                   then Some (@Unexpected unit "Scans list empty") else None)
                  (push_ranges (scans d) [])
    | FULL =>
        discarded (if (List.length (ips d) =? 0)%nat && (List.length (scans d) =? 0)%nat
                   then Some (@Unexpected unit "Ips and scans list empty") else None)
                  (let l1 := if (0 <? List.length (ips d))%nat
                             then push_ips (ips d) [] else [] in
                   if (0 <? List.length (scans d))%nat
                   then push_ranges (scans d) l1 else l1)
    | LOCAL =>
        match getLocalRangeIp with
        | Ok listIp => listIp
        | Unexpected _ => []
        end
    | OTHER =>
        discarded (@Unexpected unit "Bad scan type") []
    end in
  (Ok tt, set_listIpAddress l ad).

(** *** The shared status *)

Definition statusDiscoveryInit (ad : AutoDiscovery) : AutoDiscovery :=
  set_status (fun _ => mkStatus UNKNOWN 0 0 0 0 0 0) ad.

Definition statusDiscoveryReset (ad : AutoDiscovery) : AutoDiscovery :=
  set_status (fun _ => mkStatus IN_PROGRESS 0 0 0 0 0 0) ad.

(** [x ++] on a counter of the status *)
Definition incr (x : Z) : Z := wrap counter_bits (x + 1).

(** [AutoDiscovery::updateStatusDiscoveryCounters] *)
Definition updateStatusDiscoveryCounters (deviceSubType : string)
  (ad : AutoDiscovery) : AutoDiscovery :=
  let s := m_statusDiscovery ad in
  let bumped :=
    if (deviceSubType =? "ups")%string then
      Some (mkStatus (state s) (incr (ups s)) (epdu s) (sts s) (sensors s)
                     (discovered s) (progress s))
    else if (deviceSubType =? "epdu")%string then
      Some (mkStatus (state s) (ups s) (incr (epdu s)) (sts s) (sensors s)
                     (discovered s) (progress s))
    else if (deviceSubType =? "sts")%string then
      Some (mkStatus (state s) (ups s) (epdu s) (incr (sts s)) (sensors s)
                     (discovered s) (progress s))
    else if (deviceSubType =? "sensor")%string then
      Some (mkStatus (state s) (ups s) (epdu s) (sts s) (incr (sensors s))
                     (discovered s) (progress s))
    else None in
  match bumped with
  | None => ad
  | Some s' =>
      set_status (fun _ => mkStatus (state s') (ups s') (epdu s') (sts s')
                                    (sensors s') (incr (discovered s'))
                                    (progress s')) ad
  end.

(** The value assigned to [progress] when [m_listIpAddressNb != 0]:
    [100 * (nb - count) / nb] is an expression over unsigned integers of
    [count_bits] bits, so the division truncates; [std::round] receives
    that integer and returns it, and [static_cast<uint32_t>] is taken to
    keep its low 32 bits.  The conversion is defined in C++ only for a
    quotient below [2 ^ 32]; the properties of the progress are stated
    where the quotient is in that range. *)
Definition progress_value (nb count : Z) : Z :=
  let quotient :=
    wrap count_bits (100 * wrap count_bits (nb - count)) / nb in
  let rounded := quotient in
  let p := wrap 32 rounded in
  if p >? 100 then 100 else p.

(** [AutoDiscovery::updateStatusDiscoveryProgress] *)
Definition updateStatusDiscoveryProgress (ad : AutoDiscovery) : AutoDiscovery :=
  let count := wrap count_bits (m_listIpAddressCount ad - 1) in
  let ad := set_counts (m_listIpAddressNb ad) count ad in
  let p := if negb (m_listIpAddressNb ad =? 0)
           then progress_value (m_listIpAddressNb ad) count
           else 100 in
  set_status (fun s => mkStatus (state s) (ups s) (epdu s) (sts s) (sensors s)
                                (discovered s) p) ad.

Definition resetPoolScan (ad : AutoDiscovery) : AutoDiscovery :=
  set_pool (mkPool [] false) ad.

Definition stopPoolScan (ad : AutoDiscovery) : AutoDiscovery :=
  set_pool (mkPool (tasks (m_poolScan ad)) true) ad.

Definition set_state (st : Status) (ad : AutoDiscovery) : AutoDiscovery :=
  set_status (fun s => mkStatus st (ups s) (epdu s) (sts s) (sensors s)
                                (discovered s) (progress s)) ad.

(** [AutoDiscovery::scanCheck], given the pool's count of active tasks. *)
Definition scanCheck (countActiveTasks : nat) (ad : AutoDiscovery)
  : bool * AutoDiscovery :=
  if (countActiveTasks =? 0)%nat then (true, set_state TERMINATED ad)
  else (false, ad).

(** *** scan *)

(** What a scan task asks of its collaborators, in order. *)
Inductive ScanEvent :=
| Try (inAsset : AssetsIn) (found : bool)
| Create (req : Request) (res : Expected string).

(** The object shared by the tasks and the calls made so far. *)
Record ScanWorld := mkSW {
  obj : AutoDiscovery;
  log : list ScanEvent
}.

Definition on_obj (f : AutoDiscovery -> AutoDiscovery) : St ScanWorld unit :=
  modify (fun w => mkSW (f (obj w)) (log w)).

Definition record (e : ScanEvent) : St ScanWorld unit :=
  modify (fun w => mkSW (obj w) (log w ++ [e])).

(** The lambda [getAssetStatus] *)
Definition getAssetStatus : Z :=
  if isDeviceCentricView then ACTIVE else NONACTIVE.

(** [(m_params.aux.parent == "0") ? "" : m_params.aux.parent] *)
Definition parent_or_empty (ad : AutoDiscovery) : string :=
  if (parent (aux (m_params ad)) =? "0")%string then ""
  else parent (aux (m_params ad)).

(** The body of the loop over [asset.sensors]. *)
Definition create_sensor (ipAddress assetNameCreated : string)
  (sensor : Sensor) : St ScanWorld unit :=
  w <- get ;;
  let ad := obj w in
  let extLogicalAsset := [("logical_asset", parent_or_empty ad);
                          ("read_only", "false")] in
  let extParentName := [("parent_name.1", assetNameCreated);
                        ("read_only", "false")] in
  let sensor_ext := (s_ext sensor ++ [extLogicalAsset]) ++ [extParentName] in
  let reqSensor :=
    mkRequest (s_type sensor) (s_subtype sensor) getAssetStatus
              (priority (aux (m_params ad))) [] assetNameCreated
              (snd (updateExt sensor_ext [])) in
  let resSensor := create_run reqSensor in
  record (Create reqSensor resSensor) ;;
  if is_ok resSensor
  then on_obj (updateStatusDiscoveryCounters (s_subtype sensor))
  else ret tt.

(** The body of the loop over [outAsset]. *)
Definition create_asset (ipAddress : string) (asset : Asset)
  : St ScanWorld unit :=
  w <- get ;;
  let ad := obj w in
  let ext1 := snd (updateExt (a_ext asset) []) in
  let ext2 := snd (updateHostName ipAddress ext1) in
  let req :=
    mkRequest (a_type asset) (a_subtype asset) getAssetStatus
              (priority (aux (m_params ad))) (m_defaultValuesLinks ad)
              (parent_or_empty ad) ext2 in
  let res := create_run req in
  record (Create req res) ;;
  match res with
  | Unexpected _ => ret tt
  | Ok assetNameCreated =>
      on_obj (updateStatusDiscoveryCounters (a_subtype asset)) ;;
      for_each (a_sensors asset) (create_sensor ipAddress assetNameCreated)
  end.

(** The loop over the credentials for one reachable protocol; the value
    is the flag [found]. *)
Fixpoint try_documents (ipAddress : string) (elt : Protocols.Return)
  (documents : list string) : St ScanWorld bool :=
  match documents with
  | [] => ret false
  | doc :: rest =>
      let inAsset := mkAssetsIn ipAddress (Protocols.protocol elt)
                                (Protocols.port elt) doc in
      let getAssetsRes := getAssets inAsset in
      record (Try inAsset (is_ok getAssetsRes)) ;;
      match getAssetsRes with
      | Ok outAsset =>
          for_each outAsset (create_asset ipAddress) ;;
          ret true
      | Unexpected _ => try_documents ipAddress elt rest
      end
  end.

(** The loop over the protocols read. *)
Fixpoint try_protocols (ipAddress : string)
  (listProtocols : list Protocols.Return) : St ScanWorld unit :=
  match listProtocols with
  | [] => ret tt
  | elt :: rest =>
      if Protocols.reachable elt then
        w <- get ;;
        let documents := documents (discovery (m_params (obj w))) in
        found <- try_documents ipAddress elt documents ;;
        if found then ret tt else try_protocols ipAddress rest
      else try_protocols ipAddress rest
  end.

(** [AutoDiscovery::scan], for a non-null object and collaborators that
    do not throw: every path ends in [updateStatusDiscoveryProgress]. *)
Definition scan (ipAddress : string) : St ScanWorld unit :=
  w <- get ;;
  let inProt := Protocols.mkIn ipAddress
                  (protocols (discovery (m_params (obj w)))) in
  match getProtocols inProt with
  | Unexpected _ => on_obj updateStatusDiscoveryProgress
  | Ok listProtocols =>
      try_protocols ipAddress listProtocols ;;
      on_obj updateStatusDiscoveryProgress
  end.

(** The calls of [getAssets] a task made, and those that succeeded. *)
Definition tried (l : list ScanEvent) : list AssetsIn :=
  flat_map (fun e => match e with Try a _ => [a] | Create _ _ => [] end) l.

Definition winners (l : list ScanEvent) : list AssetsIn :=
  flat_map (fun e => match e with Try a true => [a] | _ => [] end) l.

(** *** start and stop *)

Definition pushWorker (ip : string) (pool : ThreadPool) : ThreadPool :=
  mkPool (tasks pool ++ [ip]) (stopped pool).

(** The loop of [start] over [m_listIpAddress]: each address is handed to
    the pool and erased from the list ([erase(it --)] steps back so that
    the increment of the loop lands on the new first element), which
    leaves the list empty. *)
Fixpoint dispatch (l : list string) (pool : ThreadPool) : ThreadPool :=
  match l with
  | [] => pool
  | ip :: rest => dispatch rest (pushWorker ip pool)
  end.

Definition startThreadScanCheck (ad : AutoDiscovery) : AutoDiscovery :=
  mkAD (m_statusDiscovery ad) (m_params ad) (m_listIpAddress ad)
       (m_listIpAddressNb ad) (m_listIpAddressCount ad)
       (m_defaultValuesLinks ad) (m_poolScan ad) (S (scanCheckThreads ad)).

(** [AutoDiscovery::start] *)
Definition start (inp : StartIn) (ad : AutoDiscovery)
  : Expected unit * AutoDiscovery :=
  if negb (Status_eqb (state (m_statusDiscovery ad)) IN_PROGRESS) then
    let ad := set_params inp ad in
    let ad := statusDiscoveryReset ad in
    let ad := resetPoolScan ad in
    let (res, ad) := readConfig inp ad in
    match res with
    | Unexpected e => (Unexpected ("Bad input parameter: " +++ e), ad)
    | Ok _ =>
        let n := wrap count_bits (Z.of_nat (List.length (m_listIpAddress ad))) in
        let ad := set_counts n n ad in
        let ad := set_pool (dispatch (m_listIpAddress ad) (m_poolScan ad)) ad in
        let ad := set_listIpAddress [] ad in
        let ad := startThreadScanCheck ad in
        (Ok tt, ad)
    end
  else (Unexpected "Scan in progress", ad).

(** [AutoDiscovery::stop] *)
Definition stop (ad : AutoDiscovery) : Expected unit * AutoDiscovery :=
  if Status_eqb (state (m_statusDiscovery ad)) IN_PROGRESS then
    (Ok tt, stopPoolScan (set_state CANCELLED_BY_USER ad))
  else (Unexpected "No scan in progress", ad).

End Operations.

(* --------------------------------------------------------------------- *)
(** *** Notions used to state the properties *)

Section Notions.
Context {env : Environment}.

(** The progress as the specification computes it: [100 * (N - r) / N] in
    exact rational arithmetic, rounded to the nearest integer (halves
    upwards, the value is not negative) and clamped to 100. *)
Definition spec_progress (total remaining : Z) : Z :=
  Z.min 100 (Qfloor (Qplus (Qmake (100 * (total - remaining)) (Z.to_pos total))
                           (Qmake 1 2))).

(** The sub types [updateStatusDiscoveryCounters] counts. *)
Definition counted_subtype (deviceSubType : string) : bool :=
  (deviceSubType =? "ups")%string || (deviceSubType =? "epdu")%string
  || (deviceSubType =? "sts")%string || (deviceSubType =? "sensor")%string.

(** The sum of the four per-subtype counters, as an integer. *)
Definition subtype_sum (s : StatusDiscovery) : Z :=
  ups s + epdu s + sts s + sensors s.

(** [observable n ad]: [ad] is what a reader can find between two critical
    sections, after [n] counted discoveries since the counters were last
    zeroed.  Each constructor is one region run under [m_mutex], or a
    change that leaves the status alone. *)
Inductive observable : nat -> AutoDiscovery -> Prop :=
| obs_init ad :
    observable 0 (statusDiscoveryInit ad)
| obs_reset ad :
    observable 0 (statusDiscoveryReset ad)
| obs_counters n ad deviceSubType :
    observable n ad ->
    observable (if counted_subtype deviceSubType then S n else n)
               (updateStatusDiscoveryCounters deviceSubType ad)
| obs_progress n ad :
    observable n ad ->
    observable n (updateStatusDiscoveryProgress ad)
| obs_state n ad st :
    observable n ad ->
    observable n (set_state st ad)
| obs_frame n ad ad' :
    observable n ad ->
    m_statusDiscovery ad' = m_statusDiscovery ad ->
    observable n ad'.

(** The (protocol, credential) pairs a task may try for an address, in
    the order of the two loops. *)
Definition candidates (ipAddress : string)
  (listProtocols : list Protocols.Return) (documents : list string)
  : list AssetsIn :=
  flat_map (fun elt =>
              if Protocols.reachable elt
              then map (mkAssetsIn ipAddress (Protocols.protocol elt)
                                   (Protocols.port elt)) documents
              else []) listProtocols.

(** The last entry of a map, in iteration order, whose key is not
    [read_only]. *)
Definition last_attribute (m : ExtMap) : option (string * string) :=
  find (fun kv => negb (fst kv =? "read_only")%string) (rev m).

(** Whether the last [read_only] entry of a map has the value ["true"]. *)
Definition marked_read_only (m : ExtMap) : bool :=
  match find (fun kv => (fst kv =? "read_only")%string) (rev m) with
  | Some (_, v) => (v =? "true")%string
  | None => false
  end.

(** What one input map adds to the output of the translation. *)
Definition contribution (m : ExtMap) : ExtOut :=
  match last_attribute m with
  | Some (k, v) =>
      if (k =? "")%string then []
      else [(k, mkMapExtObj v (marked_read_only m) true)]
  | None => []
  end.

(** A name without the separator ['.']. *)
Fixpoint dotless (s : string) : bool :=
  match s with
  | EmptyString => true
  | String c rest => negb (Ascii.eqb c "."%char) && dotless rest
  end.

(** The invariant carried through the critical sections: every counter is
    a [counter_bits]-wide value, the wrapped sum is the total, and as long
    as fewer than [2 ^ counter_bits] discoveries were counted both the sum
    and the total are that number. *)
Definition counters_consistent (n : nat) (s : StatusDiscovery) : Prop :=
  (0 <= ups s /\ 0 <= epdu s /\ 0 <= sts s /\ 0 <= sensors s) /\
  wrap counter_bits (subtype_sum s) = discovered s /\
  (Z.of_nat n < 2 ^ counter_bits ->
   subtype_sum s = Z.of_nat n /\ discovered s = Z.of_nat n).

(** A computation of a scan task that keeps the object observable. *)
Definition keeps_observable {A} (c : St ScanWorld A) : Prop :=
  forall w n, observable n (obj w) ->
              exists m, observable m (obj (snd (c w))).

(** A computation that calls neither [getAssets] nor changes the request. *)
Definition quiet {A} (c : St ScanWorld A) : Prop :=
  forall w,
    tried (log (snd (c w))) = tried (log w) /\
    winners (log (snd (c w))) = winners (log w) /\
    m_params (obj (snd (c w))) = m_params (obj w).

(** What the two loops of a task leave in the log: the candidates up to
    and including the first one [getAssets] accepts. *)
Definition stops_at_first_success (cands before after : list AssetsIn)
  (won_before won_after : list AssetsIn) (found : bool) : Prop :=
  exists failed rest,
    cands = failed ++ rest /\
    Forall (fun p => is_ok (getAssets p) = false) failed /\
    match rest with
    | [] => found = false
    | p :: _ => found = true /\ is_ok (getAssets p) = true
    end /\
    after = before ++ failed ++ firstn 1 rest /\
    won_after = won_before ++ firstn 1 rest.

(** The claim that only an enumeration with a non-empty candidate list
    is a winning pair. *)
Definition winners_found_assets (l : list ScanEvent) : Prop :=
  forall p, List.In p (winners l) -> exists a rest, getAssets p = Ok (a :: rest).

(** An empty request in one of the modes that need addresses, or in an
    unrecognised mode. *)
Definition empty_request (mode : DiscoveryType) : StartIn :=
  mkStartIn [] (mkDiscovery mode [] [] [] []) (mkAux 0 "0").

End Notions.

(** An object as the constructor leaves it, before [init]. *)
Definition blank : AutoDiscovery :=
  mkAD (mkStatus UNKNOWN 0 0 0 0 0 0)
       (mkStartIn [] (mkDiscovery OTHER [] [] [] []) (mkAux 0 ""))
       [] 0 0 [] (mkPool [] false) 0.

End AutoDiscovery.

(* ===================================================================== *)
(** ** Sample collaborators and requests *)

Module Samples.
Import AutoDiscovery.

(** A concrete set of collaborators, used to run the model: 64-bit
    address counters, one range ["r1"] that expands to two addresses, a
    host 10.0.0.7 reachable over XML and SNMP whose enumeration fails
    with the credential ["c1"] and, with ["c2"], succeeds with no
    candidate over XML and with a UPS and its sensor over SNMP, and a
    resolver that knows 10.0.0.7 as [ups7.lab.example]. *)
Definition sample_env : Environment :=
  mkEnv 64
    (fun range => if (range =? "r1")%string
                  then Ok ["10.0.0.7"; "10.0.0.8"]
                  else Unexpected "bad range")
    (Unexpected "no local interface")
    (fun i => if (Protocols.address i =? "10.0.0.7")%string
              then Ok [Protocols.mkReturn "nut_powercom" 443 false (Some Protocols.No);
                       Protocols.mkReturn "nut_xml_pdc" 80 true (Some Protocols.Yes);
                       Protocols.mkReturn "nut_snmp" 161 true (Some Protocols.Maybe)]
              else Unexpected "Host is not available")
    (fun a => if (in_credentialId a =? "c2")%string
              then if (in_protocol a =? "nut_snmp")%string
                   then Ok [mkAsset "device" "ups" [[("model", "9PX")]]
                                    [mkSensor "device" "sensor" []]]
                   else Ok []
              else Unexpected "no answer")
    (fun req => Ok ("asset-" +++ req_sub_type req))
    true 1 2
    (fun a => if (a =? "10.0.0.7")%string then Some 167772167 else None)
    (fun a => if a =? 167772167 then Some "ups7.lab.example" else None).

(** The same collaborators behind a probe that reports SNMP only. *)
Definition snmp_only_env : Environment :=
  mkEnv 64 (getRangeIp (Environment := sample_env))
        (getLocalRangeIp (Environment := sample_env))
        (fun _ => Ok [Protocols.mkReturn "nut_snmp" 161 true (Some Protocols.Maybe)])
        (getAssets (Environment := sample_env))
        (create_run (Environment := sample_env))
        true 1 2
        (inet_aton (Environment := sample_env))
        (getnameinfo (Environment := sample_env)).

(** A scan of one address with two credentials. *)
Definition sample_request : StartIn :=
  mkStartIn [mkLink "0" 1; mkLink "feed-1" 1]
            (mkDiscovery IP ["10.0.0.7"] [] [] ["c1"; "c2"])
            (mkAux 3 "0").

(** The object after [init] and [start] of the sample request. *)
Definition sample_object : AutoDiscovery.AutoDiscovery :=
  snd (start (env := sample_env) sample_request (statusDiscoveryInit blank)).

End Samples.

(* ===================================================================== *)
(** ** The rest of auto-discovery.cpp and notions for further properties *)

From Stdlib Require Import Permutation.

Module Lifecycle.
Import AutoDiscovery.

(** [AutoDiscovery::init], given [SCAN_MIN_NUM_THREAD], the configured
    [pollScanMax] and the outcome of [m_bus.init].  The second component
    holds the bounds the pool is created with. *)
Definition init (SCAN_MIN_NUM_THREAD pollScanMax : Z) (bus_init : Expected unit)
  (ad : AutoDiscovery) : Expected unit * (Z * Z) * AutoDiscovery :=
  let minNumThreads := SCAN_MIN_NUM_THREAD in
  let maxNumThreads :=
    if pollScanMax <? minNumThreads then minNumThreads else pollScanMax in
  let ad := set_pool (mkPool [] false) ad in
  match bus_init with
  | Unexpected e =>
      (Unexpected ("Init bus error: " +++ e), (minNumThreads, maxNumThreads), ad)
  | Ok _ =>
      (Ok tt, (minNumThreads, maxNumThreads), statusDiscoveryInit ad)
  end.

Section Notions.
Context {env : Environment}.

(** The addresses a range stands for; none when it does not expand. *)
Definition expand (range : string) : list string :=
  match getRangeIp range with
  | Ok listIp => listIp
  | Unexpected _ => []
  end.

(** The addresses of a request, mode by mode. *)
Definition addresses_of (d : Discovery) : list string :=
  match type d with
  | IP => ips d
  | MULTI => flat_map expand (scans d)
  | FULL => ips d ++ flat_map expand (scans d)
  | LOCAL => match getLocalRangeIp with Ok l => l | Unexpected _ => [] end
  | OTHER => []
  end.

(** The power links of a request that name a source. *)
Definition linked_sources (ls : list Link) : list PowerLink :=
  map (fun link => mkPowerLink (src link) (link_type link))
      (filter (fun link => negb (src link =? "0")%string) ls).

(** Everything of the object but the four counters and the total. *)
Definition outline (ad : AutoDiscovery) :=
  (m_params ad, m_listIpAddress ad, m_listIpAddressNb ad,
   m_listIpAddressCount ad, m_defaultValuesLinks ad, m_poolScan ad,
   scanCheckThreads ad,
   state (m_statusDiscovery ad), progress (m_statusDiscovery ad)).

(** A computation of a task that changes the counters at most. *)
Definition keeps_outline {A} (c : St ScanWorld A) : Prop :=
  forall w, outline (obj (snd (c w))) = outline (obj w).

(** The creation requests of a log, and how many of them were accepted
    for a sub type that is counted. *)
Definition creates (l : list ScanEvent) : list Request :=
  flat_map (fun e => match e with Create req _ => [req] | Try _ _ => [] end) l.

Definition is_counted (e : ScanEvent) : bool :=
  match e with
  | Create req (Ok _) => counted_subtype (req_sub_type req)
  | _ => false
  end.

Definition published (l : list ScanEvent) : nat :=
  List.length (filter is_counted l).

(** The total follows the log: it is [d0] plus the counted publications,
    in the counters' arithmetic. *)
Definition tallied (d0 : Z) (w : ScanWorld) : Prop :=
  discovered (m_statusDiscovery (obj w))
    = wrap counter_bits (d0 + Z.of_nat (published (log w))).

Definition keeps_tally {A} (c : St ScanWorld A) : Prop :=
  forall d0 w, tallied d0 w -> tallied d0 (snd (c w)).

(** The request [create_asset] builds for a candidate. *)
Definition asset_request (ad : AutoDiscovery) (ipAddress : string)
  (asset : Asset) : Request :=
  mkRequest (a_type asset) (a_subtype asset) getAssetStatus
            (priority (aux (m_params ad))) (m_defaultValuesLinks ad)
            (parent_or_empty ad)
            (snd (updateHostName ipAddress
                    (flat_map contribution (a_ext asset)))).

(** The request [create_sensor] builds for a sensor of the asset
    published as [assetNameCreated]. *)
Definition sensor_request (ad : AutoDiscovery) (assetNameCreated : string)
  (sensor : Sensor) : Request :=
  mkRequest (s_type sensor) (s_subtype sensor) getAssetStatus
            (priority (aux (m_params ad))) [] assetNameCreated
            (flat_map contribution (s_ext sensor)
             ++ [("logical_asset", mkMapExtObj (parent_or_empty ad) false true);
                 ("parent_name.1", mkMapExtObj assetNameCreated false true)]).

End Notions.

End Lifecycle.

(** Notions for further properties of the probe. *)
Module ProbeNotions.
Import Protocols.

(** The answers on which [tryPowercom] accepts a device: the resource is
    fetched, it parses, and its device type is "ups" or "ats". *)
Definition powercom_accepts (net : Net) (addr : string) (port : Z) : bool :=
  match neon_get net "https" addr port powercom_path with
  | Ok content =>
      match yaml_device_type net content with
      | Ok deviceType =>
          (deviceType =? "ups")%string || (deviceType =? "ats")%string
      | Unexpected _ => false
      end
  | Unexpected _ => false
  end.

(** The product descriptions [tryXmlPdc] goes on with: a known card that
    does not speak XML.V4. *)
Definition supported_card (prod : ProductInfo) : bool :=
  ((name prod =? "Network Management Card")%string
   || (name prod =? "HPE UPS Network Module")%string)
  && negb (pi_protocol prod =? "XML.V4")%string.

(** The answers on which [tryXmlPdc] accepts a device. *)
Definition xml_accepts (net : Net) (addr : string) (port : Z) : bool :=
  match xml_product net addr port with
  | Ok prod =>
      supported_card prod
      && is_ok (xml_properties net addr port (summary_url prod))
  | Unexpected _ => false
  end.

(** The number of events of a trace that satisfy [f]. *)
Definition count_events (f : Event -> bool) (l : list Event) : nat :=
  List.length (filter f l).

Definition is_close (e : Event) : bool :=
  match e with EvClose => true | _ => false end.

Definition is_free (e : Event) : bool :=
  match e with EvFreeaddrinfo => true | _ => false end.

Definition is_http (e : Event) : bool :=
  match e with EvHttpGet _ _ _ _ => true | _ => false end.

End ProbeNotions.

(** More sample inputs. *)
Module MoreSamples.
Import AutoDiscovery Samples.

(** The sample scan with the single credential that every enumeration
    refuses. *)
Definition refused_request : StartIn :=
  mkStartIn [] (mkDiscovery IP ["10.0.0.7"] [] [] ["c1"]) (mkAux 3 "0").

Definition refused_object : AutoDiscovery.AutoDiscovery :=
  snd (start (env := sample_env) refused_request (statusDiscoveryInit blank)).

(** A network whose hosts do not answer the liveness check. *)
Definition dead_net : Protocols.Net :=
  Protocols.mkNet (fun _ => false)
        (fun _ _ _ _ => Unexpected "connection refused")
        (fun _ => Unexpected "bad yaml")
        (fun _ _ => Unexpected "connection refused")
        (fun _ _ _ => Unexpected "connection refused")
        (fun _ _ => 0)
        (fun _ => "gai error")
        (fun _ _ => (3, 0))
        (fun _ _ => (0, 0))
        (fun _ _ => 1)
        (fun _ _ => (0, 0))
        (fun _ _ _ => 1)
        (fun _ => "error").

(** A network on which connections stay in progress until [poll] times
    out. *)
Definition slow_net : Protocols.Net :=
  Protocols.mkNet (fun _ => true)
        (fun _ _ _ _ => Unexpected "timeout")
        (fun _ => Unexpected "bad yaml")
        (fun _ _ => Unexpected "timeout")
        (fun _ _ _ => Unexpected "timeout")
        (fun _ _ => 0)
        (fun _ => "gai error")
        (fun _ _ => (3, 0))
        (fun _ _ => (-1, Protocols.EINPROGRESS))
        (fun _ _ => 0)
        (fun _ _ => (0, 0))
        (fun _ _ _ => 1)
        (fun _ => "error").

(** The sample collaborators with 32-bit address counters. *)
Definition env32 : Environment :=
  mkEnv 32 (getRangeIp (Environment := sample_env))
        (getLocalRangeIp (Environment := sample_env))
        (getProtocols (Environment := sample_env))
        (getAssets (Environment := sample_env))
        (create_run (Environment := sample_env))
        true 1 2
        (inet_aton (Environment := sample_env))
        (getnameinfo (Environment := sample_env)).

End MoreSamples.

(** The probe that [scan] calls. *)
Module ProbeSpec.
Import Protocols.

(** Modelled from the spec: the candidate protocols of one probe, for
    [Protocols::getProtocols], which is not in the sources.  Section 4.2:
    a fixed, ordered list of candidate protocols; section 4.3, step 1: if
    the request restricts the candidate protocols, only those are
    attempted.  The list is the table of protocols.cpp, kept in its order
    and cut down to the names of the filter when the filter is not
    empty. *)
Definition restricted (filter : list string) : list (Type_ * string * Z) :=
  match filter with
  | [] => tries
  | _ :: _ =>
      List.filter (fun aux => existsb (String.eqb (snd (fst aux))) filter) tries
  end.

(** Modelled from the spec: [Protocols::getProtocols], called by
    [AutoDiscovery::scan]; the sources hold the caller only.  Section
    4.2: the sentinel address short-circuits to the two fixed results
    without touching the network; real probing requires the address to
    answer the liveness check first, and if it does not the whole probe
    fails and no per-protocol result is produced; then every candidate is
    probed and reported, one entry per candidate whatever the outcome, a
    failure of one never ending the probing of the others.  Section 4.3:
    the candidates are those of the request's filter.  The probe of each
    protocol is the one of protocols.cpp. *)
Definition getProtocols (net : Net) (i : In) : IO (Expected Out) :=
  if (address i =? fake_address)%string then
    ret (Ok [mkReturn "nut_snmp" 1234 true None;
             mkReturn "nut_xml_pdc" 4321 false None])
  else
    (emit (EvPing (address i)) ;;
     if negb (ping net (address i)) then
       ret (Unexpected ("Host is not available: " +++ address i))
     else
       o <- probe_all net i (restricted (protocols i)) [] ;;
       ret (Ok o))%st.




End ProbeSpec.

(* ===================================================================== *)
(** * Properties *)

Import AutoDiscovery Samples.

Section StatusFacts.
Context {env : Environment}.

Lemma wrap_wrap_add bits a b :
  wrap bits (wrap bits a + b) = wrap bits (a + b).
Proof. unfold wrap. apply Zplus_mod_idemp_l. Qed.

Lemma wrap_small bits a : 0 <= a < 2 ^ bits -> wrap bits a = a.
Proof. intros H. unfold wrap. apply Z.mod_small. exact H. Qed.

Lemma wrap_range bits a : 0 <= bits -> 0 <= wrap bits a < 2 ^ bits.
Proof.
  intros H. unfold wrap. apply Z.mod_pos_bound. apply Z.pow_pos_nonneg; lia.
Qed.

Lemma counted_subtype_false s :
  counted_subtype s = false ->
  (s =? "ups")%string = false /\ (s =? "epdu")%string = false /\
  (s =? "sts")%string = false /\ (s =? "sensor")%string = false.
Proof.
  unfold counted_subtype. intros H.
  repeat (apply orb_false_iff in H; destruct H as [H ?]). auto.
Qed.

Lemma updateStatusDiscoveryCounters_other s ad :
  counted_subtype s = false -> updateStatusDiscoveryCounters s ad = ad.
Proof.
  intros H. apply counted_subtype_false in H. destruct H as (H1 & H2 & H3 & H4).
  unfold updateStatusDiscoveryCounters. rewrite H1, H2, H3, H4. reflexivity.
Qed.


Lemma counters_consistent_zero st p :
  counters_consistent 0 (mkStatus st 0 0 0 0 0 p).
Proof.
  unfold counters_consistent, subtype_sum; simpl. repeat split; try lia.
Qed.

Lemma incr_nonneg x : 0 <= incr x.
Proof. unfold incr. apply wrap_range. unfold counter_bits. lia. Qed.

Lemma incr_small x : 0 <= x -> x + 1 < 2 ^ counter_bits -> incr x = x + 1.
Proof. intros. unfold incr. apply wrap_small. lia. Qed.

Lemma bump_total x others d :
  wrap counter_bits (x + others) = d ->
  wrap counter_bits (incr x + others) = incr d.
Proof.
  intros <-. unfold incr. rewrite !wrap_wrap_add. f_equal. lia.
Qed.

Lemma counters_consistent_bump n sub ad :
  counted_subtype sub = true ->
  counters_consistent n (m_statusDiscovery ad) ->
  counters_consistent (S n)
    (m_statusDiscovery (updateStatusDiscoveryCounters sub ad)).
Proof.
  intros Hs ((Hu & He & Ht & Hn) & Hw & Hex).
  assert (Hsmall : Z.of_nat (S n) < 2 ^ counter_bits ->
                   subtype_sum (m_statusDiscovery ad) = Z.of_nat n /\
                   discovered (m_statusDiscovery ad) = Z.of_nat n)
    by (intros; apply Hex; lia).
  clear Hex.
  destruct ad as [s p l nb c dl pool k]; destruct s as [st u e t sn d pr].
  unfold updateStatusDiscoveryCounters, counted_subtype, subtype_sum in *.
  cbn [m_statusDiscovery ups epdu sts sensors discovered state progress] in *.
  destruct (sub =? "ups")%string eqn:E1;
    [| destruct (sub =? "epdu")%string eqn:E2;
       [| destruct (sub =? "sts")%string eqn:E3;
          [| destruct (sub =? "sensor")%string eqn:E4; [| discriminate]]]];
    unfold counters_consistent, subtype_sum;
    cbn [m_statusDiscovery set_status ups epdu sts sensors discovered
         state progress];
    (split; [repeat split; auto using incr_nonneg |]); split.
  all: try (match goal with
            | |- wrap _ ?sum = incr _ =>
                match sum with
                | context [incr ?x] =>
                    replace sum with (incr x + (sum - incr x)) by lia;
                    apply bump_total; rewrite <- Hw; f_equal; lia
                end
            end).
  all: intros Hlt; destruct (Hsmall Hlt) as [Hsum Hd];
    rewrite !incr_small by lia; lia.
Qed.

Lemma observable_consistent n ad :
  observable n ad -> counters_consistent n (m_statusDiscovery ad).
Proof.
  induction 1 as [ad | ad | n ad sub H IH | n ad H IH | n ad st H IH
                 | n ad ad' H IH Heq].
  - apply counters_consistent_zero.
  - apply counters_consistent_zero.
  - destruct (counted_subtype sub) eqn:E.
    + apply counters_consistent_bump; assumption.
    + rewrite updateStatusDiscoveryCounters_other by exact E. exact IH.
  - exact IH.
  - exact IH.
  - rewrite Heq. exact IH.
Qed.

(** The public operations move between observable objects. *)
Lemma start_observable inp n ad :
  observable n ad -> exists m, observable m (snd (start inp ad)).
Proof.
  intros H. unfold start.
  destruct (negb (Status_eqb (state (m_statusDiscovery ad)) IN_PROGRESS)).
  - exists 0%nat. cbn [snd readConfig fst].
    eapply obs_frame; [apply (obs_reset (set_params inp ad)) | reflexivity].
  - exists n. exact H.
Qed.

Lemma stop_observable n ad :
  observable n ad -> observable n (snd (stop ad)).
Proof.
  intros H. unfold stop.
  destruct (Status_eqb (state (m_statusDiscovery ad)) IN_PROGRESS); cbn [snd].
  - eapply obs_frame; [apply (obs_state _ _ CANCELLED_BY_USER H) | reflexivity].
  - exact H.
Qed.

Lemma scanCheck_observable k n ad :
  observable n ad -> observable n (snd (scanCheck k ad)).
Proof.
  intros H. unfold scanCheck. destruct (k =? 0)%nat; cbn [snd].
  - apply obs_state, H.
  - exact H.
Qed.


Lemma keeps_ret {A} (a : A) : keeps_observable (ret a).
Proof. intros w n H. exists n. exact H. Qed.

Lemma keeps_bind {A B} (c : St ScanWorld A) (k : A -> St ScanWorld B) :
  keeps_observable c -> (forall a, keeps_observable (k a)) ->
  keeps_observable (bind c k).
Proof.
  intros Hc Hk w n H. unfold bind.
  destruct (Hc w n H) as [m Hm]. destruct (c w) as [a w']. cbn [snd] in Hm.
  apply (Hk a w' m Hm).
Qed.

Lemma keeps_get : keeps_observable (@get ScanWorld).
Proof. intros w n H. exists n. exact H. Qed.

Lemma keeps_record e : keeps_observable (record e).
Proof. intros w n H. exists n. exact H. Qed.

Lemma keeps_counters sub :
  keeps_observable (on_obj (updateStatusDiscoveryCounters sub)).
Proof. intros w n H. eexists. cbn. apply obs_counters, H. Qed.

Lemma keeps_progress : keeps_observable (on_obj updateStatusDiscoveryProgress).
Proof. intros w n H. eexists. cbn. apply obs_progress, H. Qed.

Lemma keeps_for_each {A} (l : list A) (body : A -> St ScanWorld unit) :
  (forall a, keeps_observable (body a)) -> keeps_observable (for_each l body).
Proof.
  intros Hb. induction l as [| a l IH]; cbn [for_each].
  - apply keeps_ret.
  - apply keeps_bind; [apply Hb | intros _; exact IH].
Qed.

Create HintDb keeps.
#[local] Hint Resolve keeps_ret keeps_get keeps_record keeps_counters
  keeps_progress : keeps.

Lemma keeps_create_sensor ip name sensor :
  keeps_observable (create_sensor ip name sensor).
Proof.
  unfold create_sensor. apply keeps_bind; [auto with keeps |]. intros w.
  apply keeps_bind; [auto with keeps |]. intros _.
  destruct (is_ok _); auto with keeps.
Qed.

Lemma keeps_create_asset ip asset : keeps_observable (create_asset ip asset).
Proof.
  unfold create_asset. apply keeps_bind; [auto with keeps |]. intros w.
  apply keeps_bind; [auto with keeps |]. intros _.
  destruct (create_run _); [| auto with keeps].
  apply keeps_bind; [auto with keeps |]. intros _.
  apply keeps_for_each. intros s. apply keeps_create_sensor.
Qed.

Lemma keeps_try_documents ip elt docs :
  keeps_observable (try_documents ip elt docs).
Proof.
  induction docs as [| doc rest IH]; cbn [try_documents]; [auto with keeps |].
  apply keeps_bind; [auto with keeps |]. intros _.
  destruct (getAssets _); [| exact IH].
  apply keeps_bind; [| auto with keeps].
  apply keeps_for_each. intros asset. apply keeps_create_asset.
Qed.

Lemma keeps_try_protocols ip l : keeps_observable (try_protocols ip l).
Proof.
  induction l as [| elt rest IH]; cbn [try_protocols]; [auto with keeps |].
  destruct (Protocols.reachable elt); [| exact IH].
  apply keeps_bind; [auto with keeps |]. intros w.
  apply keeps_bind; [apply keeps_try_documents |]. intros [|]; auto with keeps.
Qed.

Lemma scan_observable ip : keeps_observable (scan ip).
Proof.
  unfold scan. apply keeps_bind; [auto with keeps |]. intros w.
  destruct (getProtocols _); [| auto with keeps].
  apply keeps_bind; [apply keeps_try_protocols | auto with keeps].
Qed.

(** C5. At every point where the shared status can be observed, the four
    per-subtype counters add up to the total discovered counter: the sum
    taken in the counters' own 32-bit arithmetic always does, and the
    exact integer sum does as long as fewer than 2^32 discoveries were
    counted since the counters were zeroed.  The status changes only
    inside critical sections (init, reset, counter increment, progress
    update, state transition), each of which keeps the equality. *)
Theorem counters_sum_to_discovered n ad :
  observable n ad ->
  wrap counter_bits (subtype_sum (m_statusDiscovery ad))
    = discovered (m_statusDiscovery ad) /\
  (Z.of_nat n < 2 ^ counter_bits ->
   ups (m_statusDiscovery ad) + epdu (m_statusDiscovery ad)
   + sts (m_statusDiscovery ad) + sensors (m_statusDiscovery ad)
     = discovered (m_statusDiscovery ad)).
Proof.
  intros H. apply observable_consistent in H.
  destruct H as (_ & Hw & Hex). split; [exact Hw |].
  intros Hlt. destruct (Hex Hlt) as [Hs Hd].
  unfold subtype_sum in Hs. lia.
Qed.

(** C10. A device subtype other than "ups", "epdu", "sts" and "sensor"
    leaves the whole object, and so every field of the scan status,
    unchanged. *)
Theorem unknown_subtype_changes_nothing deviceSubType ad :
  deviceSubType <> "ups" -> deviceSubType <> "epdu" ->
  deviceSubType <> "sts" -> deviceSubType <> "sensor" ->
  updateStatusDiscoveryCounters deviceSubType ad = ad.
Proof.
  intros H1 H2 H3 H4. apply updateStatusDiscoveryCounters_other.
  unfold counted_subtype.
  apply String.eqb_neq in H1, H2, H3, H4. rewrite H1, H2, H3, H4. reflexivity.
Qed.

End StatusFacts.

Lemma counters_sum_to_discovered_witness :
  let ad := updateStatusDiscoveryCounters "sensor"
              (updateStatusDiscoveryCounters "ups"
                 (statusDiscoveryInit blank)) in
  observable (env := sample_env) 2 ad /\
  discovered (m_statusDiscovery ad) = 2 /\
  ups (m_statusDiscovery ad) + epdu (m_statusDiscovery ad)
  + sts (m_statusDiscovery ad) + sensors (m_statusDiscovery ad)
    = discovered (m_statusDiscovery ad).
Proof.
  intros ad.
  assert (H : observable (env := sample_env) 2 ad).
  { apply (obs_counters 1 _ "sensor"). apply (obs_counters 0 _ "ups").
    apply obs_init. }
  split; [exact H |]. split; [reflexivity |].
  apply (counters_sum_to_discovered (env := sample_env) 2 ad H).
  vm_compute. reflexivity.
Defined.

Lemma unknown_subtype_changes_nothing_witness :
  updateStatusDiscoveryCounters "rackcontroller"
    (statusDiscoveryReset blank) = statusDiscoveryReset blank.
Proof.
  apply unknown_subtype_changes_nothing; discriminate.
Defined.

Section ProgressFacts.
Context {env : Environment}.

Lemma count_bits_pow : 32 <= count_bits -> 2 ^ 32 <= 2 ^ count_bits.
Proof. intros H. apply Z.pow_le_mono_r; lia. Qed.

(** With integer operands the quotient is the floor of the exact ratio:
    [std::round] has nothing left to round. *)
Lemma progress_value_floor total remaining :
  32 <= count_bits ->
  1 <= total -> 0 <= remaining <= total -> 100 * total < 2 ^ count_bits ->
  progress_value total remaining = 100 * (total - remaining) / total.
Proof.
  intros Hb Ht Hr Hmax. pose proof (count_bits_pow Hb) as Hp.
  unfold progress_value.
  rewrite (wrap_small count_bits (total - remaining)) by lia.
  rewrite (wrap_small count_bits (100 * _)) by nia.
  assert (Hq : 0 <= 100 * (total - remaining) / total <= 100).
  { split.
    - apply Z.div_pos; lia.
    - apply Z.div_le_upper_bound; nia. }
  rewrite (wrap_small 32) by (change (2 ^ 32) with 4294967296; lia).
  destruct (Z.gtb_spec (100 * (total - remaining) / total) 100); lia.
Qed.

Lemma progress_no_address ad :
  m_listIpAddressNb ad = 0 ->
  progress (m_statusDiscovery (updateStatusDiscoveryProgress ad)) = 100.
Proof.
  intros H. unfold updateStatusDiscoveryProgress.
  cbn [set_counts m_listIpAddressNb set_status m_statusDiscovery progress].
  rewrite H. reflexivity.
Qed.

(** C4. With three addresses of which one remains after a completion,
    the published progress is 66, the truncated quotient, whereas
    [100 * 2 / 3] rounded to the nearest integer is 67. *)
Theorem progress_is_truncated_not_rounded :
  32 <= count_bits ->
  let ad := updateStatusDiscoveryProgress (set_counts 3 2 blank) in
  m_listIpAddressCount ad = 1 /\
  progress (m_statusDiscovery ad) = 66 /\
  spec_progress 3 1 = 67.
Proof.
  intros Hb ad. pose proof (count_bits_pow Hb) as Hp.
  assert (Hc : wrap count_bits (2 - 1) = 1)
    by (apply wrap_small; change (2 ^ 32) with 4294967296 in Hp; lia).
  subst ad. unfold updateStatusDiscoveryProgress.
  cbn [set_counts m_listIpAddressNb m_listIpAddressCount set_status
       m_statusDiscovery progress blank].
  rewrite Hc. split; [reflexivity |]. split; [| reflexivity].
  change (negb (3 =? 0)) with true. cbv iota.
  rewrite progress_value_floor;
    try (change (2 ^ 32) with 4294967296 in Hp); try lia.
  reflexivity.
Qed.

End ProgressFacts.

Lemma progress_is_truncated_not_rounded_witness :
  32 <= count_bits (Environment := sample_env) /\
  progress (m_statusDiscovery
              (updateStatusDiscoveryProgress (env := sample_env)
                 (set_counts 3 2 blank))) = 66.
Proof.
  assert (H : 32 <= count_bits (Environment := sample_env))
    by (vm_compute; discriminate).
  split; [exact H |].
  apply (progress_is_truncated_not_rounded (env := sample_env) H).
Defined.

Section StartFacts.
Context {env : Environment}.

(** No path of [readConfig] returns the error it builds. *)
Lemma readConfig_ok inp ad : fst (readConfig inp ad) = Ok tt.
Proof. reflexivity. Qed.

Lemma start_ok inp ad :
  state (m_statusDiscovery ad) <> IN_PROGRESS ->
  fst (start inp ad) = Ok tt.
Proof.
  intros H. unfold start.
  destruct (state (m_statusDiscovery ad)); try reflexivity.
  contradiction H; reflexivity.
Qed.


(** C1. On an initialised object, [start] with an empty IP list and an
    empty range list in mode IP, MULTI or FULL, or with an unrecognised
    mode, dispatches no task but returns success, not an error: the
    error [readConfig] builds is never returned. *)
Theorem start_accepts_empty_request :
  Forall (fun mode =>
            let r := start (empty_request mode) (statusDiscoveryInit blank) in
            fst r = Ok tt /\
            tasks (m_poolScan (snd r)) = [] /\
            state (m_statusDiscovery (snd r)) = IN_PROGRESS)
         [IP; MULTI; FULL; OTHER].
Proof.
  repeat constructor.
Qed.

End StartFacts.


Section ProbeFacts.
Import Protocols ProtocolsDefs.
Variable net : Net.

Lemma writes_app l e :
  writes (l ++ [e]) = (writes l + (if is_write e then 1 else 0))%nat.
Proof.
  unfold writes. rewrite filter_app, length_app. cbn [filter].
  destruct (is_write e); reflexivity.
Qed.

Lemma write_loop_run addr port n i w :
  let r := write_loop net addr port n i w in
  fst r = (if writes_succeed net addr port i n
           then Ok tt else Unexpected "Socket write failed") /\
  errno (snd r) = errno w /\
  (writes (trace (snd r)) <= writes (trace w) + n)%nat /\
  (writes_succeed net addr port i n = true ->
   writes (trace (snd r)) = (writes (trace w) + n)%nat).
Proof.
  revert i w. induction n as [| n IH]; intros i w; cbn zeta.
  - cbn. repeat split; lia.
  - cbn [write_loop]. unfold bind, emit. cbn [writes_succeed seq forallb].
    destruct (sys_write net addr port i =? -1) eqn:E; cbn [negb andb].
    + unfold ret. cbn [fst snd trace errno]. rewrite writes_app. cbn [is_write].
      repeat split; try lia; discriminate.
    + specialize (IH (S i) (mkWorld (trace w ++ [EvWrite i]) (errno w))).
      cbn zeta in IH. destruct IH as (H1 & H2 & H3 & H4).
      fold (writes_succeed net addr port (S i) n).
      cbn [trace errno] in *. rewrite writes_app in *. cbn [is_write] in *.
      repeat split; try assumption; try lia.
      intros Hs. specialize (H4 Hs). lia.
Qed.

Ltac run_io :=
  unfold bind, emit, ret, set_errno, get_errno;
  repeat (progress cbn [fst snd trace errno is_ok negb andb]).

Ltac break_match :=
  match goal with
  | |- context [match ?x with _ => _ end] => destruct x eqn:?
  end.

Lemma tryPowercom_no_write i port w :
  writes (trace (snd (tryPowercom net i port w))) = writes (trace w).
Proof.
  unfold tryPowercom. run_io. repeat break_match; run_io;
    rewrite writes_app; cbn [is_write]; lia.
Qed.

Lemma tryXmlPdc_no_write i port w :
  writes (trace (snd (tryXmlPdc net i port w))) = writes (trace w).
Proof.
  unfold tryXmlPdc. run_io. repeat break_match; run_io;
    rewrite ?writes_app; cbn [is_write]; lia.
Qed.

Lemma timeoutConnect_run addr port w :
  let r := timeoutConnect net addr port w in
  is_ok (fst r) =
    negb (negb (fst (sys_connect net addr port) =? 0)
          && (snd (sys_connect net addr port) =? EINPROGRESS)
          && negb (sys_poll net addr port =? 1)
          && negb (sys_poll net addr port =? 0)) /\
  writes (trace (snd r)) = writes (trace w).
Proof.
  unfold timeoutConnect. run_io.
  destruct (sys_connect net addr port) as [r e]. cbn [fst snd].
  destruct (r =? 0) eqn:Er; run_io; cbn [negb andb].
  - rewrite writes_app. cbn [is_write]. split; [reflexivity | lia].
  - destruct (e =? EINPROGRESS) eqn:Ee; run_io; cbn [negb andb].
    + destruct (sys_poll net addr port =? 1) eqn:E1; run_io; cbn [negb andb].
      * destruct (sys_getsockopt net addr port) as [gr ov].
        destruct (gr =? 0); run_io; rewrite !writes_app; cbn [is_write];
          (split; [reflexivity | lia]).
      * destruct (sys_poll net addr port =? 0) eqn:E0; run_io;
          rewrite !writes_app; cbn [is_write]; (split; [reflexivity | lia]).
    + rewrite writes_app. cbn [is_write]. split; [reflexivity | lia].
Qed.

Lemma trySnmp_run i port w :
  let r := trySnmp net i port w in
  is_ok (fst r) = snmp_connected net (address i) port
                  && writes_succeed net (address i) port 0 N /\
  (writes (trace (snd r)) <= writes (trace w) + N)%nat /\
  (is_ok (fst r) = true ->
   writes (trace (snd r)) = (writes (trace w) + N)%nat).
Proof.
  unfold trySnmp, snmp_connected. run_io.
  destruct (sys_getaddrinfo net (address i) port =? 0) eqn:Eg; cbn [negb andb].
  2:{ run_io. rewrite writes_app. cbn [is_write].
      repeat split; try lia; discriminate. }
  destruct (sys_socket net (address i) port) as [sock e]. cbn [fst].
  destruct (sock =? -1) eqn:Es; cbn [negb andb].
  { run_io. rewrite !writes_app. cbn [is_write].
    repeat split; try lia; discriminate. }
  match goal with
  | |- context [timeoutConnect net ?a ?p ?w0] =>
      pose proof (timeoutConnect_run a p w0) as Hc;
      destruct (timeoutConnect net a p w0) as [c w1]
  end.
  cbn zeta in Hc. cbn [fst snd trace] in Hc. destruct Hc as [Hok Hw].
  rewrite <- Hok. rewrite !writes_app in Hw. cbn [is_write] in Hw.
  destruct c as [[] | msg]; cbn [is_ok andb].
  - pose proof (write_loop_run (address i) port N 0 w1) as Hl.
    cbn zeta in Hl. destruct (write_loop net (address i) port N 0 w1) as [r w2].
    cbn [fst snd] in Hl. destruct Hl as (H1 & _ & H3 & H4).
    run_io. rewrite !writes_app. cbn [is_write]. rewrite H1.
    destruct (writes_succeed net (address i) port 0 N); cbn [is_ok].
    + specialize (H4 eq_refl). repeat split; lia.
    + repeat split; try lia; discriminate.
  - run_io. rewrite !writes_app. cbn [is_write].
    repeat split; try lia; discriminate.
Qed.

Lemma probe_snmp i label port w :
  let r := probe net i (Snmp, label, port) w in
  let b := snmp_connected net (address i) port
           && writes_succeed net (address i) port 0 N in
  fst r = mkReturn label port b (Some (if b then Maybe else No)) /\
  (writes (trace (snd r)) <= writes (trace w) + N)%nat /\
  (b = true -> writes (trace (snd r)) = (writes (trace w) + N)%nat).
Proof.
  cbn zeta. unfold probe. unfold bind.
  pose proof (trySnmp_run i port w) as H. cbn zeta in H.
  destruct (trySnmp net i port w) as [res w']. cbn [fst snd] in H.
  destruct H as (Hok & Hle & Heq). rewrite <- Hok.
  destruct (is_ok res); unfold ret; cbn [fst snd]; repeat split; auto.
Qed.

Lemma probe_http i ty label port w :
  ty <> Snmp ->
  let r := probe net i (ty, label, port) w in
  protocol (fst r) = label /\ Protocols.port (fst r) = port /\
  writes (trace (snd r)) = writes (trace w).
Proof.
  intros Hty. cbn zeta. unfold probe. unfold bind.
  destruct ty; [| | contradiction Hty; reflexivity].
  - pose proof (tryPowercom_no_write i port w) as H.
    destruct (tryPowercom net i port w) as [res w']. cbn [snd] in H.
    destruct (is_ok res); unfold ret; cbn [fst snd protocol Protocols.port];
      auto.
  - pose proof (tryXmlPdc_no_write i port w) as H.
    destruct (tryXmlPdc net i port w) as [res w']. cbn [snd] in H.
    destruct (is_ok res); unfold ret; cbn [fst snd protocol Protocols.port];
      auto.
Qed.

Lemma extends_refl w : extends w w.
Proof. exists []. symmetry. apply app_nil_r. Qed.

Lemma extends_trans w1 w2 w3 : extends w1 w2 -> extends w2 w3 -> extends w1 w3.
Proof.
  intros [e1 H1] [e2 H2]. exists (e1 ++ e2). rewrite H2, H1. symmetry. apply app_assoc.
Qed.

Lemma extends_emit e w er : extends w (mkWorld (trace w ++ [e]) er).
Proof. exists [e]. reflexivity. Qed.

Lemma extends_errno w er : extends w (mkWorld (trace w) er).
Proof. exists []. symmetry. apply app_nil_r. Qed.

Ltac solve_extends :=
  unfold extends; cbn [trace]; eexists;
  first [ reflexivity
        | rewrite <- ?app_assoc; reflexivity
        | symmetry; apply app_nil_r ].

Lemma write_loop_extends addr port n i w :
  extends w (snd (write_loop net addr port n i w)).
Proof.
  revert i w. induction n as [| n IH]; intros i w; cbn [write_loop].
  - apply extends_refl.
  - run_io. destruct (sys_write net addr port i =? -1); run_io.
    + apply extends_emit.
    + eapply extends_trans; [| apply IH]. apply extends_emit.
Qed.

Lemma timeoutConnect_extends addr port w :
  extends w (snd (timeoutConnect net addr port w)).
Proof.
  unfold timeoutConnect. run_io.
  destruct (sys_connect net addr port) as [r e].
  destruct (r =? 0); run_io; [solve_extends |].
  destruct (e =? EINPROGRESS); run_io; [| solve_extends].
  destruct (sys_poll net addr port =? 1); run_io.
  - destruct (sys_getsockopt net addr port) as [gr ov].
    destruct (gr =? 0); run_io; solve_extends.
  - destruct (sys_poll net addr port =? 0); run_io; solve_extends.
Qed.

Lemma extends_after_first w w' e :
  extends (mkWorld (trace w ++ [e]) (errno w)) w' ->
  exists evs, trace w' = trace w ++ e :: evs.
Proof.
  intros [evs H]. exists evs. rewrite H. cbn [trace].
  rewrite <- app_assoc. reflexivity.
Qed.

Lemma tryPowercom_attempt i p w :
  extends (mkWorld (trace w ++ [first_attempt (address i) (Powercom, "", p)])
                   (errno w))
          (snd (tryPowercom net i p w)).
Proof.
  unfold tryPowercom. run_io. cbn [first_attempt].
  repeat break_match; run_io; solve_extends.
Qed.

Lemma tryXmlPdc_attempt i p w :
  extends (mkWorld (trace w ++ [first_attempt (address i) (Xml, "", p)])
                   (errno w))
          (snd (tryXmlPdc net i p w)).
Proof.
  unfold tryXmlPdc. run_io. cbn [first_attempt].
  repeat break_match; run_io; solve_extends.
Qed.

Lemma trySnmp_attempt i p w :
  extends (mkWorld (trace w ++ [first_attempt (address i) (Snmp, "", p)])
                   (errno w))
          (snd (trySnmp net i p w)).
Proof.
  unfold trySnmp. run_io. cbn [first_attempt].
  destruct (sys_getaddrinfo net (address i) p =? 0); run_io;
    [| solve_extends].
  destruct (sys_socket net (address i) p) as [sock e].
  destruct (sock =? -1); run_io; [solve_extends |].
  match goal with
  | |- context [timeoutConnect net ?a ?q ?w0] =>
      pose proof (timeoutConnect_extends a q w0) as Hc;
      destruct (timeoutConnect net a q w0) as [c w1]
  end.
  cbn [snd] in Hc.
  eapply extends_trans; [apply (extends_emit EvSocket) |].
  eapply extends_trans; [exact Hc |].
  destruct c as [[] | msg]; run_io.
  - pose proof (write_loop_extends (address i) p N 0 w1) as Hl.
    destruct (write_loop net (address i) p N 0 w1) as [r w2]. cbn [snd] in Hl.
    eapply extends_trans; [exact Hl |]. solve_extends.
  - solve_extends.
Qed.

Lemma probe_attempts i aux w :
  exists evs,
    trace (snd (probe net i aux w))
      = trace w ++ first_attempt (address i) aux :: evs.
Proof.
  destruct aux as [[ty label] p]. apply extends_after_first.
  unfold probe. unfold bind.
  destruct ty; cbn [first_attempt].
  - pose proof (tryPowercom_attempt i p w) as H.
    destruct (tryPowercom net i p w) as [res w']. cbn [snd] in H.
    destruct (is_ok res); exact H.
  - pose proof (tryXmlPdc_attempt i p w) as H.
    destruct (tryXmlPdc net i p w) as [res w']. cbn [snd] in H.
    destruct (is_ok res); exact H.
  - pose proof (trySnmp_attempt i p w) as H.
    destruct (trySnmp net i p w) as [res w']. cbn [snd] in H.
    destruct (is_ok res); exact H.
Qed.

(** The world in which the SNMP probe of [run] starts. *)
Lemma run_real_address i :
  address i <> fake_address -> ping net (address i) = true ->
  exists w1 w2 w3,
    w1 = mkWorld [EvPing (address i)] 0 /\
    w2 = snd (probe net i (Powercom, "nut_powercom", 443) w1) /\
    w3 = snd (probe net i (Xml, "nut_xml_pdc", 80) w2) /\
    run net i [] world0 =
      (Ok [fst (probe net i (Powercom, "nut_powercom", 443) w1);
           fst (probe net i (Xml, "nut_xml_pdc", 80) w2);
           fst (probe net i (Snmp, "nut_snmp", 161) w3)],
       snd (probe net i (Snmp, "nut_snmp", 161) w3)).
Proof.
  intros Hreal Hup. do 3 eexists. repeat (split; [reflexivity |]).
  unfold run. apply String.eqb_neq in Hreal. rewrite Hreal.
  unfold bind at 1. unfold emit at 1. rewrite Hup. cbn [negb].
  unfold bind at 1. cbn [tries probe_all]. unfold bind at 1.
  cbn [world0 trace errno app].
  destruct (probe net i (Powercom, "nut_powercom", 443) _) as [r1 w2].
  unfold bind at 1. cbn [snd fst].
  destruct (probe net i (Xml, "nut_xml_pdc", 80) w2) as [r2 w3].
  unfold bind at 1. cbn [snd fst].
  destruct (probe net i (Snmp, "nut_snmp", 161) w3) as [r3 w4].
  reflexivity.
Qed.

End ProbeFacts.

Section ProbeClaims.
Import Protocols ProtocolsDefs.
Variable net : Net.

Lemma writes_succeed_all addr port n :
  writes_succeed net addr port 0 n = true <->
  (forall k, (k < n)%nat -> sys_write net addr port k <> -1).
Proof.
  unfold writes_succeed. rewrite forallb_forall. split.
  - intros H k Hk. specialize (H k). rewrite in_seq in H.
    apply Z.eqb_neq. apply negb_true_iff. apply H. lia.
  - intros H k Hk. apply in_seq in Hk. apply negb_true_iff, Z.eqb_neq.
    apply H. lia.
Qed.

(** C7. For the sentinel address the probe appends exactly the two fixed
    results, whatever the filter and the network, and leaves the world as
    it was: no liveness check, no network call. *)
Theorem fake_address_canned filter :
  (forall out w,
     run net (mkIn "__fake__" filter) out w =
       (Ok (out ++ [mkReturn "nut_snmp" 1234 true None;
                    mkReturn "nut_xml_pdc" 4321 false None]), w)) /\
  run_result net (mkIn "__fake__" filter) =
    Ok [mkReturn "nut_snmp" 1234 true None;
        mkReturn "nut_xml_pdc" 4321 false None] /\
  run_trace net (mkIn "__fake__" filter) = [].
Proof.
  repeat split.
Qed.

(** C6. For a live, non-sentinel address the third result of the probe is
    the SNMP one, on port 161.  The probe writes at most 20 times on the
    socket.  If one of the 20 writes fails the protocol is reported not
    reachable (availability No); if the socket was set up and all 20
    writes succeed it is reported reachable with availability Maybe, after
    exactly 20 writes.  The availability is never Yes. *)
Theorem snmp_probe_verdict i :
  address i <> fake_address -> ping net (address i) = true ->
  exists p x s,
    run_result net i = Ok [p; x; s] /\
    protocol s = "nut_snmp" /\ port s = 161 /\
    (writes (run_trace net i) <= 20)%nat /\
    ((exists k, (k < 20)%nat /\ sys_write net (address i) 161 k = -1) ->
     reachable s = false /\ available s = Some No) /\
    (snmp_connected net (address i) 161 = true ->
     (forall k, (k < 20)%nat -> sys_write net (address i) 161 k <> -1) ->
     reachable s = true /\ available s = Some Maybe /\
     writes (run_trace net i) = 20%nat) /\
    available s <> Some Yes.
Proof.
  intros Hreal Hup.
  destruct (run_real_address net i Hreal Hup) as (w1 & w2 & w3 & E1 & E2 & E3 & Hrun).
  destruct (probe_http net i Powercom "nut_powercom" 443 w1) as (_ & _ & Hw2);
    [discriminate |].
  destruct (probe_http net i Xml "nut_xml_pdc" 80 w2) as (_ & _ & Hw3);
    [discriminate |].
  rewrite <- E2 in Hw2. rewrite <- E3 in Hw3.
  assert (Hw0 : writes (trace w3) = 0%nat)
    by (rewrite Hw3, Hw2, E1; reflexivity).
  destruct (probe_snmp net i "nut_snmp" 161 w3) as (Hs & Hle & Heq).
  cbn zeta in Hs, Hle, Heq.
  exists (fst (probe net i (Powercom, "nut_powercom", 443) w1)),
         (fst (probe net i (Xml, "nut_xml_pdc", 80) w2)),
         (fst (probe net i (Snmp, "nut_snmp", 161) w3)).
  unfold run_result, run_trace. rewrite Hrun. cbn [fst snd].
  rewrite Hw0 in Hle, Heq. change N with 20%nat in *. cbn [Nat.add] in Hle, Heq.
  split; [reflexivity |]. rewrite Hs. cbn [protocol port reachable available].
  split; [reflexivity |]. split; [reflexivity |]. split; [exact Hle |].
  split; [| split].
  - intros (k & Hk & Hfail).
    destruct (writes_succeed net (address i) 161 0 20) eqn:Ews.
    + apply writes_succeed_all with (k := k) in Ews; [contradiction | exact Hk].
    + rewrite andb_false_r. split; reflexivity.
  - intros Hc Hall. apply writes_succeed_all in Hall.
    rewrite Hc, Hall in *. cbn [andb]. repeat split. apply Heq. reflexivity.
  - destruct (_ && _); discriminate.
Qed.

(** X30. [Protocols::run] does not read the filter of its input: its
    results and its calls are the same whatever the filter.  For a live,
    non-sentinel address it attempts the three protocols of its table and
    reports one result for each, in the order of the table. *)
Theorem probe_ignores_filter addr filter :
  addr <> fake_address -> ping net addr = true ->
  run net (mkIn addr filter) [] world0 = run net (mkIn addr []) [] world0 /\
  (exists p x s,
     run_result net (mkIn addr filter) = Ok [p; x; s] /\
     (protocol p, port p) = ("nut_powercom", 443) /\
     (protocol x, port x) = ("nut_xml_pdc", 80) /\
     (protocol s, port s) = ("nut_snmp", 161)) /\
  Forall (fun aux => List.In (first_attempt addr aux)
                             (run_trace net (mkIn addr filter))) tries.
Proof.
  intros Hreal Hup. split; [reflexivity |].
  set (i := mkIn addr filter).
  destruct (run_real_address net i Hreal Hup) as (w1 & w2 & w3 & E1 & E2 & E3 & Hrun).
  destruct (probe_http net i Powercom "nut_powercom" 443 w1) as (Hp1 & Hp2 & _);
    [discriminate |].
  destruct (probe_http net i Xml "nut_xml_pdc" 80 w2) as (Hx1 & Hx2 & _);
    [discriminate |].
  destruct (probe_snmp net i "nut_snmp" 161 w3) as (Hs & _).
  cbn zeta in Hs.
  destruct (probe_attempts net i (Powercom, "nut_powercom", 443) w1) as [e1 T1].
  destruct (probe_attempts net i (Xml, "nut_xml_pdc", 80) w2) as [e2 T2].
  destruct (probe_attempts net i (Snmp, "nut_snmp", 161) w3) as [e3 T3].
  rewrite <- E2 in T1. rewrite <- E3 in T2.
  unfold run_result, run_trace. rewrite Hrun. cbn [fst snd]. split.
  - do 3 eexists. split; [reflexivity |].
    rewrite Hp1, Hp2, Hx1, Hx2, Hs. repeat split.
  - rewrite T3, T2, T1. change (address i) with addr.
    unfold tries. repeat constructor;
      rewrite ?in_app_iff; cbn [List.In]; auto 10.
Qed.

End ProbeClaims.

Lemma snmp_probe_verdict_witness :
  exists s,
    nth_error (match Protocols.run_result ProtocolsDefs.udp_only_net
                       (Protocols.mkIn "10.0.0.7" []) with
               | Ok out => out | Unexpected _ => [] end) 2 = Some s /\
    Protocols.reachable s = true /\
    Protocols.available s = Some Protocols.Maybe.
Proof.
  destruct (snmp_probe_verdict ProtocolsDefs.udp_only_net
              (Protocols.mkIn "10.0.0.7" []))
    as (p & x & s & Hrun & _ & _ & _ & _ & Hall & _).
  - vm_compute. discriminate.
  - reflexivity.
  - exists s. rewrite Hrun. split; [reflexivity |].
    destruct Hall as (Hr & Ha & _).
    + reflexivity.
    + intros k Hk. vm_compute. discriminate.
    + split; assumption.
Defined.

(** With a failing sixth write the probe stops after six writes and
    reports SNMP as not reachable. *)
Example refused_after_six_writes :
  Protocols.run_result ProtocolsDefs.refusing_net (Protocols.mkIn "10.0.0.7" [])
    = Ok [Protocols.mkReturn "nut_powercom" 443 false (Some Protocols.No);
          Protocols.mkReturn "nut_xml_pdc" 80 false (Some Protocols.No);
          Protocols.mkReturn "nut_snmp" 161 false (Some Protocols.No)] /\
  ProtocolsDefs.writes
    (Protocols.run_trace ProtocolsDefs.refusing_net
       (Protocols.mkIn "10.0.0.7" [])) = 6%nat.
Proof. split; vm_compute; reflexivity. Qed.

Lemma probe_ignores_filter_witness :
  Protocols.run ProtocolsDefs.udp_only_net
    (Protocols.mkIn "10.0.0.7" ["nut_snmp"]) [] Protocols.world0
  = Protocols.run ProtocolsDefs.udp_only_net
      (Protocols.mkIn "10.0.0.7" []) [] Protocols.world0.
Proof.
  apply (probe_ignores_filter ProtocolsDefs.udp_only_net "10.0.0.7" ["nut_snmp"]).
  - vm_compute. discriminate.
  - reflexivity.
Defined.


Section ExtFacts.
Context {env : Environment}.

(** The state of the inner loop of [updateExt] after a map [m], started
    with key [k0], value [v0] and flag [r0]. *)
Lemma updateExt_entries m k0 v0 r0 u0 :
  fold_left updateExt_entry m (k0, mkMapExtObj v0 r0 u0) =
    (match last_attribute m with Some (k, _) => k | None => k0 end,
     mkMapExtObj
       (match last_attribute m with Some (_, v) => v | None => v0 end)
       (match find (fun kv => (fst kv =? "read_only")%string) (rev m) with
        | Some (_, v) => (v =? "true")%string
        | None => r0
        end)
       u0).
Proof.
  induction m as [| [key val] m IH] using rev_ind; [reflexivity |].
  rewrite fold_left_app, IH. unfold last_attribute.
  rewrite rev_unit. cbn [fold_left updateExt_entry find fst].
  destruct (key =? "read_only")%string; cbn [negb value readOnly update].
  - destruct (val =? "true")%string; reflexivity.
  - reflexivity.
Qed.

Lemma updateExt_map_contribution extOut m :
  updateExt_map extOut m = extOut ++ contribution m.
Proof.
  unfold updateExt_map, newMapExtObj, contribution, marked_read_only.
  rewrite updateExt_entries.
  destruct (last_attribute m) as [[k v] |]; cbn [String.eqb negb].
  - destruct (k =? "")%string; cbn [negb];
      [symmetry; apply app_nil_r | reflexivity].
  - symmetry; apply app_nil_r.
Qed.

Lemma updateExt_fold extIn extOut :
  fold_left updateExt_map extIn extOut = extOut ++ flat_map contribution extIn.
Proof.
  revert extOut. induction extIn as [| m extIn IH]; intros extOut;
    cbn [fold_left flat_map].
  - symmetry; apply app_nil_r.
  - rewrite IH, updateExt_map_contribution. symmetry. apply app_assoc.
Qed.

(** In a map with a single attribute and at most one [read_only] entry,
    the contribution is that attribute, read-only exactly when the map
    holds [read_only] with the value ["true"]. *)
Lemma contribution_single m k v :
  NoDup (map fst m) ->
  List.In (k, v) m -> k <> "read_only" -> k <> "" ->
  (forall k' v', List.In (k', v') m -> k' = k \/ k' = "read_only") ->
  exists ro,
    contribution m = [(k, mkMapExtObj v ro true)] /\
    (ro = true <-> List.In ("read_only", "true") m).
Proof.
  intros Hnd Hin Hk Hne Hall.
  assert (Huniq : forall k1 v1 v2, List.In (k1, v1) m -> List.In (k1, v2) m -> v1 = v2).
  { clear - Hnd. induction m as [| [a b] m IH]; intros k1 v1 v2 H1 H2; [destruct H1 |].
    cbn [map fst] in Hnd. inversion Hnd as [| ? ? Hnot Hnd']; subst.
    destruct H1 as [E1 | H1], H2 as [E2 | H2].
    - congruence.
    - inversion E1; subst. exfalso. apply Hnot.
      change k1 with (fst (k1, v2)). apply in_map, H2.
    - inversion E2; subst. exfalso. apply Hnot.
      change k1 with (fst (k1, v1)). apply in_map, H1.
    - eapply IH; eassumption. }
  unfold contribution, last_attribute, marked_read_only.
  destruct (find (fun kv => negb (fst kv =? "read_only")%string) (rev m))
    as [[k1 v1] |] eqn:Ef.
  - apply find_some in Ef. destruct Ef as [Hin1 Hp1]. cbn [fst] in Hp1.
    apply in_rev in Hin1. apply negb_true_iff, String.eqb_neq in Hp1.
    destruct (Hall _ _ Hin1) as [-> | ->]; [| contradiction].
    rewrite (Huniq _ _ _ Hin1 Hin).
    apply String.eqb_neq in Hne. rewrite Hne.
    eexists. split; [reflexivity |].
    destruct (find (fun kv => (fst kv =? "read_only")%string) (rev m))
      as [[k2 v2] |] eqn:Er.
    + apply find_some in Er. destruct Er as [Hin2 Hp2]. cbn [fst] in Hp2.
      apply in_rev in Hin2. apply String.eqb_eq in Hp2. subst k2.
      rewrite String.eqb_eq. split.
      * intros ->. exact Hin2.
      * intros Ht. eapply Huniq; eassumption.
    + split; [discriminate |]. intros Ht. apply in_rev in Ht.
      pose proof (find_none _ _ Er _ Ht) as Hc. cbn in Hc. discriminate.
  - exfalso. apply in_rev in Hin. pose proof (find_none _ _ Ef _ Hin) as Hc.
    cbn [fst] in Hc. apply negb_false_iff, String.eqb_eq in Hc. contradiction.
Qed.

(** C8. [updateExt] never fails and appends, map by map, the
    contribution of each input map: one attribute named by the last key
    other than [read_only] (when that key is not empty) with its value,
    read-only exactly when the last [read_only] entry of the map has the
    value "true"; nothing for a map without such a key or whose last such
    key is empty.  The two-map example gives foo (writable) and baz
    (read-only). *)
Theorem updateExt_translation extIn extOut :
  updateExt extIn extOut = (Ok tt, extOut ++ flat_map contribution extIn) /\
  updateExt [[("foo", "bar")]; [("baz", "qux"); ("read_only", "true")]] []
    = (Ok tt, [("foo", mkMapExtObj "bar" false true);
               ("baz", mkMapExtObj "qux" true true)]).
Proof.
  split; [| reflexivity].
  unfold updateExt. rewrite updateExt_fold. reflexivity.
Qed.

(** A map whose only key is the empty string holds a key other than
    [read_only] and yet contributes nothing. *)
Lemma empty_key_is_dropped :
  (exists k v, List.In (k, v) [("", "x")] /\ k <> "read_only") /\
  updateExt [[("", "x")]] [] = (Ok tt, []).
Proof.
  split; [| reflexivity].
  exists "", "x". split; [left; reflexivity | discriminate].
Qed.

Lemma cut_at_dot_prefix dnsName :
  dotless (cut_at_dot dnsName) = true /\
  (cut_at_dot dnsName = dnsName \/
   exists rest, dnsName = cut_at_dot dnsName +++ String "."%char rest).
Proof.
  induction dnsName as [| c s [IH1 IH2]]; cbn [cut_at_dot dotless].
  - split; [reflexivity | left; reflexivity].
  - destruct (Ascii.eqb c ".") eqn:E; cbn [dotless].
    + split; [reflexivity |]. right. exists s.
      apply Ascii.eqb_eq in E. subst c. reflexivity.
    + rewrite E. cbn [negb andb]. split; [exact IH1 |].
      destruct IH2 as [-> | [rest Hr]]; [left; reflexivity |].
      right. exists rest. cbn [String.append]. f_equal. exact Hr.
Qed.

(** C9. [updateHostName] fails and leaves the attributes untouched when
    the address is empty, does not parse, or has no name; otherwise it
    succeeds and appends exactly [dns.1] with the resolved name and
    [hostname] with that name cut before its first ['.'], both writable. *)
Theorem updateHostName_atomic address ext :
  (address = "" \/ inet_aton address = None \/
   (exists a, inet_aton address = Some a /\ getnameinfo a = None) ->
   is_ok (fst (updateHostName address ext)) = false /\
   snd (updateHostName address ext) = ext) /\
  (forall a dnsName,
     address <> "" -> inet_aton address = Some a ->
     getnameinfo a = Some dnsName ->
     updateHostName address ext =
       (Ok tt, ext ++ [("dns.1", mkMapExtObj dnsName false true);
                       ("hostname", mkMapExtObj (cut_at_dot dnsName) false true)]) /\
     dotless (cut_at_dot dnsName) = true /\
     (cut_at_dot dnsName = dnsName \/
      exists rest, dnsName = cut_at_dot dnsName +++ String "."%char rest)).
Proof.
  split.
  - intros H. unfold updateHostName.
    destruct (address =? "")%string eqn:E; cbn [negb]; [split; reflexivity |].
    destruct H as [H | [H | (a & Ha & Hn)]].
    + apply String.eqb_neq in E. contradiction.
    + rewrite H. split; reflexivity.
    + rewrite Ha, Hn. split; reflexivity.
  - intros a dnsName Hne Ha Hn. unfold updateHostName.
    apply String.eqb_neq in Hne. rewrite Hne, Ha, Hn. cbn [negb].
    split; [| apply cut_at_dot_prefix].
    rewrite <- app_assoc. reflexivity.
Qed.

End ExtFacts.

Lemma updateHostName_atomic_witness :
  snd (updateHostName (env := sample_env) "10.0.0.9"
         [("model", mkMapExtObj "9PX" false true)])
    = [("model", mkMapExtObj "9PX" false true)] /\
  updateHostName (env := sample_env) "10.0.0.7" []
    = (Ok tt, [("dns.1", mkMapExtObj "ups7.lab.example" false true);
               ("hostname", mkMapExtObj "ups7" false true)]).
Proof.
  split.
  - apply (proj1 (updateHostName_atomic (env := sample_env) "10.0.0.9"
                    [("model", mkMapExtObj "9PX" false true)])).
    right; left; reflexivity.
  - apply (proj2 (updateHostName_atomic (env := sample_env) "10.0.0.7" [])
                 167772167 "ups7.lab.example");
      [discriminate | reflexivity | reflexivity].
Defined.

Section ScanFacts.
Context {env : Environment}.


Lemma quiet_ret {A} (a : A) : quiet (ret a).
Proof. intros w. repeat split. Qed.

Lemma quiet_get : quiet (@get ScanWorld).
Proof. intros w. repeat split. Qed.

Lemma quiet_bind {A B} (c : St ScanWorld A) (k : A -> St ScanWorld B) :
  quiet c -> (forall a, quiet (k a)) -> quiet (bind c k).
Proof.
  intros Hc Hk w. unfold bind. specialize (Hc w).
  destruct (c w) as [a w1]. cbn [snd] in Hc. destruct Hc as (H1 & H2 & H3).
  destruct (Hk a w1) as (K1 & K2 & K3).
  rewrite K1, K2, K3. auto.
Qed.

Lemma tried_app l1 l2 : tried (l1 ++ l2) = tried l1 ++ tried l2.
Proof. unfold tried. apply flat_map_app. Qed.

Lemma winners_app l1 l2 : winners (l1 ++ l2) = winners l1 ++ winners l2.
Proof. unfold winners. apply flat_map_app. Qed.

Lemma quiet_record_create req res : quiet (record (Create req res)).
Proof.
  intros w. unfold record, modify. cbn [snd log obj].
  rewrite tried_app, winners_app. cbn. rewrite !app_nil_r. auto.
Qed.

Lemma quiet_counters sub : quiet (on_obj (updateStatusDiscoveryCounters sub)).
Proof.
  intros w. unfold on_obj, modify. cbn [snd log obj]. repeat split.
  unfold updateStatusDiscoveryCounters.
  repeat (destruct (_ =? _)%string); reflexivity.
Qed.

Lemma quiet_progress : quiet (on_obj updateStatusDiscoveryProgress).
Proof. intros w. repeat split. Qed.

Lemma quiet_for_each {A} (l : list A) (body : A -> St ScanWorld unit) :
  (forall a, quiet (body a)) -> quiet (for_each l body).
Proof.
  intros Hb. induction l as [| a l IH]; cbn [for_each].
  - apply quiet_ret.
  - apply quiet_bind; [apply Hb | intros _; exact IH].
Qed.

Lemma quiet_create_sensor ip name sensor : quiet (create_sensor ip name sensor).
Proof.
  unfold create_sensor. apply quiet_bind; [apply quiet_get |]. intros w.
  apply quiet_bind; [apply quiet_record_create |]. intros _.
  destruct (is_ok _); [apply quiet_counters | apply quiet_ret].
Qed.

Lemma quiet_create_asset ip asset : quiet (create_asset ip asset).
Proof.
  unfold create_asset. apply quiet_bind; [apply quiet_get |]. intros w.
  apply quiet_bind; [apply quiet_record_create |]. intros _.
  destruct (create_run _); [| apply quiet_ret].
  apply quiet_bind; [apply quiet_counters |]. intros _.
  apply quiet_for_each. intros s. apply quiet_create_sensor.
Qed.


Lemma try_documents_log ip elt docs w found w' :
  try_documents ip elt docs w = (found, w') ->
  stops_at_first_success
    (map (mkAssetsIn ip (Protocols.protocol elt) (Protocols.port elt)) docs)
    (tried (log w)) (tried (log w'))
    (winners (log w)) (winners (log w')) found /\
  m_params (obj w') = m_params (obj w).
Proof.
  revert w. induction docs as [| doc docs IH]; intros w Hrun.
  - cbn in Hrun. inversion Hrun; subst. split; [| reflexivity].
    exists [], []. cbn. rewrite !app_nil_r. repeat split. constructor.
  - cbn [try_documents map] in *.
    set (p := mkAssetsIn ip (Protocols.protocol elt) (Protocols.port elt) doc) in *.
    unfold bind at 1 in Hrun. unfold record at 1, modify in Hrun.
    destruct (getAssets p) as [outAsset | msg] eqn:Eg; cbn [is_ok] in Hrun.
    + pose proof (quiet_for_each outAsset (create_asset ip)
                    (quiet_create_asset ip)
                    (mkSW (obj w) (log w ++ [Try p true]))) as (Q1 & Q2 & Q3).
      unfold bind, ret in Hrun.
      destruct (for_each outAsset (create_asset ip) _) as [[] w1].
      inversion Hrun; subst. cbn [fst snd log obj] in *. split; [| exact Q3].
      exists [], (p :: map (mkAssetsIn ip (Protocols.protocol elt)
                                     (Protocols.port elt)) docs).
      rewrite Q1, Q2, tried_app, winners_app, Eg. cbn.
      repeat split. constructor.
    + apply IH in Hrun. cbn [log obj] in Hrun.
      destruct Hrun as [(failed & rest & Hc & Hf & Hr & Ht & Hw) Hp].
      split; [| exact Hp].
      exists (p :: failed), rest. rewrite Hc, Ht, Hw, tried_app, winners_app.
      cbn. rewrite app_nil_r, <- !app_assoc. repeat split; try assumption.
      constructor; [rewrite Eg; reflexivity | assumption].
Qed.

Lemma try_protocols_log ip l w w' :
  try_protocols ip l w = (tt, w') ->
  exists found,
    stops_at_first_success
      (candidates ip l (documents (discovery (m_params (obj w)))))
      (tried (log w)) (tried (log w'))
      (winners (log w)) (winners (log w')) found /\
    m_params (obj w') = m_params (obj w).
Proof.
  revert w. induction l as [| elt l IH]; intros w Hrun.
  - cbn in Hrun. inversion Hrun; subst. exists false. split; [| reflexivity].
    exists [], []. cbn. rewrite !app_nil_r. repeat split. constructor.
  - cbn [try_protocols candidates flat_map] in *.
    destruct (Protocols.reachable elt); [| apply IH, Hrun].
    unfold bind at 1 in Hrun. unfold get at 1 in Hrun.
    unfold bind at 1 in Hrun.
    destruct (try_documents ip elt _ w) as [found w1] eqn:Ed.
    apply try_documents_log in Ed.
    destruct Ed as [(failed & rest & Hc & Hf & Hr & Ht & Hw) Hp].
    destruct found.
    + inversion Hrun; subst. exists true. split; [| exact Hp].
      destruct rest as [| p rest]; [discriminate Hr |].
      exists failed, (p :: rest ++ candidates ip l
                                     (documents (discovery (m_params (obj w))))).
      rewrite Hc, Ht, Hw. rewrite <- app_assoc. repeat split; try assumption.
      apply Hr.
    + destruct rest as [| p rest]; [| destruct Hr; discriminate].
      rewrite app_nil_r in Hc. cbn [firstn] in Ht, Hw.
      rewrite !app_nil_r in Ht, Hw.
      apply IH in Hrun.
      destruct Hrun as (found' & (failed' & rest' & Hc' & Hf' & Hr' & Ht' & Hw') & Hp').
      exists found'. split; [| congruence].
      exists (failed ++ failed'), rest'.
      rewrite Hp in Hc'. unfold candidates in Hc'.
      rewrite Hc, Ht', Hw', Ht, Hw, Hc'.
      rewrite <- !app_assoc. repeat split; try assumption.
      apply Forall_app. split; assumption.
Qed.

(** X29. Within one task the pairs (protocol, credential) are tried in
    the order of the two loops; every pair tried before the last one
    failed, and after the first enumeration that returns success no
    further pair is tried.  So a task has at most one winning pair. *)
Theorem scan_stops_at_first_success ip ad listProtocols :
  getProtocols (Protocols.mkIn ip (protocols (discovery (m_params ad))))
    = Ok listProtocols ->
  let w' := snd (scan ip (mkSW ad [])) in
  (exists failed rest,
     candidates ip listProtocols (documents (discovery (m_params ad)))
       = failed ++ rest /\
     Forall (fun p => is_ok (getAssets p) = false) failed /\
     match rest with [] => True | p :: _ => is_ok (getAssets p) = true end /\
     tried (log w') = failed ++ firstn 1 rest /\
     winners (log w') = firstn 1 rest) /\
  (List.length (winners (log w')) <= 1)%nat.
Proof.
  intros Hg.
  destruct (try_protocols ip listProtocols (mkSW ad [])) as [[] w1] eqn:Et.
  assert (Es : scan ip (mkSW ad [])
               = (tt, mkSW (updateStatusDiscoveryProgress (obj w1)) (log w1))).
  { unfold scan, bind, get. cbn [obj]. rewrite Hg, Et. reflexivity. }
  cbn zeta. rewrite Es. cbn [snd log].
  apply try_protocols_log in Et. cbn [obj log] in Et.
  destruct Et as (found & (failed & rest & Hc & Hf & Hr & Ht & Hw) & _).
  cbn [tried winners flat_map app] in Ht, Hw.
  split.
  - exists failed, rest. repeat split; try assumption.
    destruct rest; [exact I | apply Hr].
  - rewrite Hw. destruct rest; cbn; lia.
Qed.

End ScanFacts.

Lemma scan_stops_at_first_success_witness :
  (List.length
     (winners (log (snd (scan (env := snmp_only_env) "10.0.0.7"
                                (mkSW sample_object []))))) <= 1)%nat.
Proof.
  apply (scan_stops_at_first_success (env := snmp_only_env) "10.0.0.7"
           sample_object
           [Protocols.mkReturn "nut_snmp" 161 true (Some Protocols.Maybe)]).
  reflexivity.
Defined.

(** C2. On the sample host the enumeration over XML with credential c2
    succeeds with an empty candidate list, and the task stops there: the
    winning pair found no asset, and SNMP with c2, which would return a
    device, is never tried.  An empty success is not treated as "no
    assets found". *)
Lemma empty_success_ends_scan :
  let xml_c2 := mkAssetsIn "10.0.0.7" "nut_xml_pdc" 80 "c2" in
  let snmp_c2 := mkAssetsIn "10.0.0.7" "nut_snmp" 161 "c2" in
  let l := log (snd (scan (env := sample_env) "10.0.0.7"
                          (mkSW sample_object []))) in
  getAssets (Environment := sample_env) xml_c2 = Ok [] /\
  winners l = [xml_c2] /\
  ~ winners_found_assets (env := sample_env) l /\
  (exists a, getAssets (Environment := sample_env) snmp_c2 = Ok [a]) /\
  ~ List.In snmp_c2 (tried l).
Proof.
  cbn zeta. split; [reflexivity |]. split; [reflexivity |]. split; [| split].
  - intros H.
    destruct (H (mkAssetsIn "10.0.0.7" "nut_xml_pdc" 80 "c2"))
      as (a & rest & Ha).
    + left. reflexivity.
    + discriminate Ha.
  - eexists. reflexivity.
  - intros H. vm_compute in H.
    destruct H as [H | [H | []]]; discriminate H.
Qed.

(** A task whose winning enumeration returns a UPS with one sensor
    publishes both and counts them. *)
Example scan_counts_ups_and_sensor :
  let w := snd (scan (env := snmp_only_env) "10.0.0.7" (mkSW sample_object [])) in
  m_statusDiscovery (obj w) = mkStatus IN_PROGRESS 1 0 0 1 2 100 /\
  tried (log w) = [mkAssetsIn "10.0.0.7" "nut_snmp" 161 "c1";
                   mkAssetsIn "10.0.0.7" "nut_snmp" 161 "c2"] /\
  List.length (log w) = 4%nat.
Proof. repeat split. Qed.

(* ===================================================================== *)
(** * Further properties *)

Import Lifecycle.

Section LifecycleFacts.
Context {env : Environment}.

Lemma push_ips_app ips l : push_ips ips l = l ++ ips.
Proof.
  unfold push_ips. revert l. induction ips as [| ip ips IH]; intros l;
    cbn [fold_left].
  - symmetry. apply app_nil_r.
  - rewrite IH, <- app_assoc. reflexivity.
Qed.

Lemma push_ranges_app ranges l :
  push_ranges ranges l = l ++ flat_map expand ranges.
Proof.
  unfold push_ranges. revert l. induction ranges as [| r ranges IH]; intros l;
    cbn [fold_left flat_map].
  - symmetry. apply app_nil_r.
  - rewrite IH. unfold expand at 2.
    destruct (getRangeIp r); rewrite <- ?app_assoc; reflexivity.
Qed.

Lemma default_links_filter ls : default_links ls = linked_sources ls.
Proof.
  unfold default_links, linked_sources.
  assert (H : forall acc,
             fold_left (fun acc link =>
                          if negb (src link =? "0")%string
                          then acc ++ [mkPowerLink (src link) (link_type link)]
                          else acc) ls acc
             = acc ++ map (fun link => mkPowerLink (src link) (link_type link))
                          (filter (fun link => negb (src link =? "0")%string) ls)).
  { induction ls as [| link ls IH]; intros acc; cbn [fold_left filter map].
    - symmetry. apply app_nil_r.
    - rewrite IH. destruct (negb (src link =? "0")%string); cbn [map];
        rewrite <- ?app_assoc; reflexivity. }
  apply (H []).
Qed.

Lemma readConfig_computes inp ad :
  readConfig inp ad =
    (Ok tt,
     set_listIpAddress (addresses_of (discovery inp))
       (set_links (linked_sources (links inp)) ad)).
Proof.
  unfold readConfig, addresses_of, discarded.
  rewrite default_links_filter. f_equal. f_equal.
  destruct (discovery inp) as [ty ips scans prots docs]. cbn [type AutoDiscovery.ips AutoDiscovery.scans].
  destruct ty.
  - reflexivity.
  - rewrite push_ips_app. reflexivity.
  - rewrite push_ranges_app. reflexivity.
  - destruct ips as [| ip ips]; destruct scans as [| r scans];
      cbn [List.length Nat.ltb Nat.leb];
      rewrite ?push_ranges_app, ?push_ips_app; cbn [app flat_map];
      rewrite ?app_nil_r; reflexivity.
  - reflexivity.
Qed.

(** X1. [readConfig] always succeeds; it replaces the address list by the
    addresses of the request (the explicit addresses first, then the
    expansion of each range in order, a range that does not expand being
    skipped) and the default links by the links that name a source, and
    touches nothing else. *)
Theorem readConfig_effect inp ad :
  readConfig inp ad =
    (Ok tt,
     set_listIpAddress (addresses_of (discovery inp))
       (set_links (linked_sources (links inp)) ad)).
Proof. exact (readConfig_computes inp ad). Qed.

Lemma dispatch_app l pool :
  dispatch l pool = mkPool (tasks pool ++ l) (stopped pool).
Proof.
  revert pool. induction l as [| ip l IH]; intros pool; cbn [dispatch].
  - rewrite app_nil_r. destruct pool; reflexivity.
  - rewrite IH. cbn [pushWorker tasks stopped]. rewrite <- app_assoc. reflexivity.
Qed.

Lemma start_accepted inp ad :
  state (m_statusDiscovery ad) <> IN_PROGRESS ->
  start inp ad =
    (Ok tt,
     mkAD (mkStatus IN_PROGRESS 0 0 0 0 0 0) inp []
          (wrap count_bits (Z.of_nat (List.length (addresses_of (discovery inp)))))
          (wrap count_bits (Z.of_nat (List.length (addresses_of (discovery inp)))))
          (linked_sources (links inp))
          (mkPool (addresses_of (discovery inp)) false)
          (S (scanCheckThreads ad))).
Proof.
  intros H. unfold start.
  destruct (Status_eqb (state (m_statusDiscovery ad)) IN_PROGRESS) eqn:E.
  { destruct (state (m_statusDiscovery ad)); try discriminate E.
    contradiction H; reflexivity. }
  cbn [negb]. rewrite readConfig_computes.
  cbn [set_listIpAddress set_links m_listIpAddress m_poolScan resetPoolScan
       set_pool set_counts]. rewrite dispatch_app. reflexivity.
Qed.

(** X2. An accepted [start] hands every address of the request to a fresh
    pool, in order, and leaves the list empty; both counts are the
    number of addresses, the status is reset and one scan-check thread is
    started. *)
Theorem start_dispatches_every_address inp ad :
  state (m_statusDiscovery ad) <> IN_PROGRESS ->
  start inp ad =
    (Ok tt,
     mkAD (mkStatus IN_PROGRESS 0 0 0 0 0 0) inp []
          (wrap count_bits (Z.of_nat (List.length (addresses_of (discovery inp)))))
          (wrap count_bits (Z.of_nat (List.length (addresses_of (discovery inp)))))
          (linked_sources (links inp))
          (mkPool (addresses_of (discovery inp)) false)
          (S (scanCheckThreads ad))).
Proof. exact (start_accepted inp ad). Qed.

(** X3. While a scan is in progress a second [start] is refused and changes
    nothing, whatever the two requests are. *)
Theorem second_start_is_refused inp inp' ad :
  state (m_statusDiscovery ad) <> IN_PROGRESS ->
  start inp' (snd (start inp ad))
    = (Unexpected "Scan in progress", snd (start inp ad)).
Proof.
  intros H. rewrite (start_accepted inp ad H). reflexivity.
Qed.

(** X4. [stop] during a scan succeeds: the state becomes CANCELLED_BY_USER,
    the pool is asked to stop, and counters, progress and everything else
    stay.  A second [stop] is then refused and changes nothing, and a new
    [start] is accepted. *)
Theorem stop_then_stop_or_start inp ad :
  state (m_statusDiscovery ad) = IN_PROGRESS ->
  let ad1 := snd (stop ad) in
  stop ad = (Ok tt, stopPoolScan (set_state CANCELLED_BY_USER ad)) /\
  state (m_statusDiscovery ad1) = CANCELLED_BY_USER /\
  stopped (m_poolScan ad1) = true /\
  tasks (m_poolScan ad1) = tasks (m_poolScan ad) /\
  (ups (m_statusDiscovery ad1), epdu (m_statusDiscovery ad1),
   sts (m_statusDiscovery ad1), sensors (m_statusDiscovery ad1),
   discovered (m_statusDiscovery ad1), progress (m_statusDiscovery ad1))
  = (ups (m_statusDiscovery ad), epdu (m_statusDiscovery ad),
     sts (m_statusDiscovery ad), sensors (m_statusDiscovery ad),
     discovered (m_statusDiscovery ad), progress (m_statusDiscovery ad)) /\
  stop ad1 = (Unexpected "No scan in progress", ad1) /\
  fst (start inp ad1) = Ok tt.
Proof.
  intros H.
  assert (E : stop ad = (Ok tt, stopPoolScan (set_state CANCELLED_BY_USER ad)))
    by (unfold stop; rewrite H; reflexivity).
  cbn zeta. rewrite E. cbn [snd]. repeat split.
Qed.

(** X5. [scanCheck] ends exactly when the pool reports no active task; it
    then sets TERMINATED whatever the state was, so that a scan stopped
    by the user ends as TERMINATED, not CANCELLED_BY_USER, once its
    tasks are gone.  Counters and progress are kept, and a new [start]
    is accepted. *)
Theorem scanCheck_after_stop inp k ad :
  state (m_statusDiscovery ad) = IN_PROGRESS ->
  let ad1 := snd (stop ad) in
  (fst (scanCheck k ad1) = true <-> k = 0%nat) /\
  (k <> 0%nat -> snd (scanCheck k ad1) = ad1) /\
  (k = 0%nat ->
   m_statusDiscovery (snd (scanCheck k ad1))
     = mkStatus TERMINATED
         (ups (m_statusDiscovery ad)) (epdu (m_statusDiscovery ad))
         (sts (m_statusDiscovery ad)) (sensors (m_statusDiscovery ad))
         (discovered (m_statusDiscovery ad)) (progress (m_statusDiscovery ad)) /\
   fst (start inp (snd (scanCheck k ad1))) = Ok tt).
Proof.
  intros H. cbn zeta. unfold stop. rewrite H. cbn [Status_eqb snd].
  unfold scanCheck. destruct k as [| k]; cbn [Nat.eqb fst snd].
  - split; [split; reflexivity |]. split; [intros C; contradiction C; reflexivity |].
    intros _. split; reflexivity.
  - split; [split; discriminate |]. split; [reflexivity |]. discriminate.
Qed.

End LifecycleFacts.

Section ProgressMore.
Context {env : Environment}.

(** X6. Whatever the total and the remaining count are (a wrapped-around
    remaining count included), when the quotient handed to the conversion
    is below [2 ^ 32] the progress published by a completion lies between
    0 and 100; and with 32-bit address counters the quotient is always
    below [2 ^ 32]. *)
Theorem progress_within_bounds ad :
  let count := wrap count_bits (m_listIpAddressCount ad - 1) in
  let quotient :=
    wrap count_bits (100 * wrap count_bits (m_listIpAddressNb ad - count))
    / m_listIpAddressNb ad in
  (count_bits = 32 -> 0 <= m_listIpAddressNb ad < 2 ^ 32 ->
   m_listIpAddressNb ad <> 0 -> 0 <= quotient < 2 ^ 32) /\
  ((m_listIpAddressNb ad <> 0 -> 0 <= quotient < 2 ^ 32) ->
   0 <= progress (m_statusDiscovery (updateStatusDiscoveryProgress ad)) <= 100).
Proof.
  cbn zeta. split.
  - intros Hb Hn Hnz. rewrite Hb.
    match goal with |- context [wrap 32 (100 * ?x)] =>
      pose proof (wrap_range 32 (100 * x) ltac:(lia)) as Hr
    end.
    split.
    + apply Z.div_pos; lia.
    + apply Z.div_lt_upper_bound; [lia |].
      match goal with |- ?a < ?n * ?p => assert (p <= n * p) by nia end. lia.
  - intros Hq. unfold updateStatusDiscoveryProgress.
    cbn [set_counts set_status m_statusDiscovery m_listIpAddressNb progress].
    destruct (m_listIpAddressNb ad =? 0) eqn:E; cbn [negb]; [lia |].
    apply Z.eqb_neq in E. specialize (Hq E).
    unfold progress_value. rewrite (wrap_small 32 _ Hq).
    match goal with |- context [?q >? 100] => destruct (Z.gtb_spec q 100) end;
      lia.
Qed.

(** X7. Without overflow the progress never decreases as the remaining count
    goes down, and it is 100 exactly when nothing remains. *)
Theorem progress_monotone_and_complete total r r' :
  32 <= count_bits -> 1 <= total -> 100 * total < 2 ^ count_bits ->
  0 <= r' <= r -> r <= total ->
  progress_value total r <= progress_value total r' /\
  (progress_value total r = 100 <-> r = 0).
Proof.
  intros Hb Ht Hmax Hr' Hr.
  rewrite !progress_value_floor by lia. split.
  - apply Z.div_le_mono; nia.
  - split.
    + intros H. destruct (Z.eq_dec r 0) as [E | E]; [exact E | exfalso].
      assert (100 * (total - r) / total < 100); [| lia].
      apply Z.div_lt_upper_bound; nia.
    + intros ->. rewrite Z.sub_0_r. apply Z.div_mul. lia.
Qed.

(** X8. With counters of at least 32 bits, a total of at least 1 and
    100 * (total + 1) within the counters' range, a completion reported
    when nothing remains wraps the remaining count around to its maximum,
    and the clamp keeps the progress at 100. *)
Theorem progress_clamped_after_underflow ad :
  32 <= count_bits ->
  1 <= m_listIpAddressNb ad -> 100 * (m_listIpAddressNb ad + 1) < 2 ^ count_bits ->
  m_listIpAddressCount ad = 0 ->
  let ad' := updateStatusDiscoveryProgress ad in
  m_listIpAddressCount ad' = 2 ^ count_bits - 1 /\
  progress (m_statusDiscovery ad') = 100.
Proof.
  intros Hb Hn Hmax Hc. pose proof (count_bits_pow Hb) as Hp.
  change (2 ^ 32) with 4294967296 in Hp.
  cbn zeta. unfold updateStatusDiscoveryProgress.
  cbn [set_counts set_status m_statusDiscovery m_listIpAddressNb
       m_listIpAddressCount progress].
  rewrite Hc.
  assert (Hw : wrap count_bits (0 - 1) = 2 ^ count_bits - 1).
  { unfold wrap. replace (0 - 1) with (-1 * 2 ^ count_bits + (2 ^ count_bits - 1)) by lia.
    rewrite Z.add_comm, Z.mod_add by lia. apply Z.mod_small. lia. }
  rewrite Hw. split; [reflexivity |].
  set (nb := m_listIpAddressNb ad) in *.
  assert (E : (nb =? 0) = false) by (apply Z.eqb_neq; lia). rewrite E. cbn [negb].
  unfold progress_value.
  assert (Hd : wrap count_bits (nb - (2 ^ count_bits - 1)) = nb + 1).
  { unfold wrap. replace (nb - (2 ^ count_bits - 1)) with (nb + 1 + (-1) * 2 ^ count_bits) by lia.
    rewrite Z.mod_add by lia. apply Z.mod_small. lia. }
  rewrite Hd. rewrite (wrap_small count_bits (100 * (nb + 1))) by lia.
  assert (Hq : 100 <= 100 * (nb + 1) / nb <= 200).
  { split.
    - apply Z.div_le_lower_bound; lia.
    - apply Z.div_le_upper_bound; lia. }
  rewrite (wrap_small 32) by lia.
  destruct (Z.gtb_spec (100 * (nb + 1) / nb) 100); lia.
Qed.

End ProgressMore.

Section TaskFacts.
Context {env : Environment}.

Lemma counters_outline sub ad :
  outline (updateStatusDiscoveryCounters sub ad) = outline ad.
Proof.
  unfold updateStatusDiscoveryCounters.
  repeat (destruct (_ =? _)%string); reflexivity.
Qed.

Lemma counters_discovered sub ad :
  discovered (m_statusDiscovery (updateStatusDiscoveryCounters sub ad))
  = if counted_subtype sub then incr (discovered (m_statusDiscovery ad))
    else discovered (m_statusDiscovery ad).
Proof.
  unfold updateStatusDiscoveryCounters, counted_subtype.
  repeat (destruct (_ =? _)%string); reflexivity.
Qed.

Lemma outline_ret {A} (a : A) : keeps_outline (ret a).
Proof. intros w. reflexivity. Qed.

Lemma outline_bind {A B} (c : St ScanWorld A) (k : A -> St ScanWorld B) :
  keeps_outline c -> (forall a, keeps_outline (k a)) -> keeps_outline (bind c k).
Proof.
  intros Hc Hk w. unfold bind. specialize (Hc w).
  destruct (c w) as [a w1]. cbn [snd] in Hc. rewrite <- Hc. apply Hk.
Qed.

Lemma outline_for_each {A} (l : list A) (body : A -> St ScanWorld unit) :
  (forall a, keeps_outline (body a)) -> keeps_outline (for_each l body).
Proof.
  intros Hb. induction l as [| a l IH]; cbn [for_each].
  - apply outline_ret.
  - apply outline_bind; [apply Hb | intros _; exact IH].
Qed.

Lemma outline_record e : keeps_outline (record e).
Proof. intros w. reflexivity. Qed.

Lemma outline_counters sub :
  keeps_outline (on_obj (updateStatusDiscoveryCounters sub)).
Proof. intros w. cbn. apply counters_outline. Qed.

Lemma outline_create_sensor ip name sensor :
  keeps_outline (create_sensor ip name sensor).
Proof.
  unfold create_sensor. apply outline_bind; [intros w; reflexivity |]. intros w.
  apply outline_bind; [apply outline_record |]. intros _.
  destruct (is_ok _); [apply outline_counters | apply outline_ret].
Qed.

Lemma outline_create_asset ip asset : keeps_outline (create_asset ip asset).
Proof.
  unfold create_asset. apply outline_bind; [intros w; reflexivity |]. intros w.
  apply outline_bind; [apply outline_record |]. intros _.
  destruct (create_run _); [| apply outline_ret].
  apply outline_bind; [apply outline_counters |]. intros _.
  apply outline_for_each. intros s. apply outline_create_sensor.
Qed.

Lemma outline_try_documents ip elt docs :
  keeps_outline (try_documents ip elt docs).
Proof.
  induction docs as [| doc rest IH]; cbn [try_documents]; [apply outline_ret |].
  apply outline_bind; [apply outline_record |]. intros _.
  destruct (getAssets _); [| exact IH].
  apply outline_bind; [| intros; apply outline_ret].
  apply outline_for_each. intros asset. apply outline_create_asset.
Qed.

Lemma outline_try_protocols ip l : keeps_outline (try_protocols ip l).
Proof.
  induction l as [| elt rest IH]; cbn [try_protocols]; [apply outline_ret |].
  destruct (Protocols.reachable elt); [| exact IH].
  apply outline_bind; [intros w; reflexivity |]. intros w.
  apply outline_bind; [apply outline_try_documents |].
  intros [|]; [apply outline_ret | exact IH].
Qed.

(** The object a task leaves is the object before it with counters
    possibly increased, followed by one progress update. *)
Lemma scan_then_progress ip w :
  exists ad1,
    outline ad1 = outline (obj w) /\
    obj (snd (scan ip w)) = updateStatusDiscoveryProgress ad1.
Proof.
  unfold scan, bind, get. cbn [obj].
  destruct (getProtocols _) as [l | msg].
  - pose proof (outline_try_protocols ip l w) as H.
    destruct (try_protocols ip l w) as [[] w1]. cbn [snd] in H.
    exists (obj w1). split; [exact H | reflexivity].
  - exists (obj w). split; reflexivity.
Qed.

Lemma scan_one_address ip w :
  let ad := obj w in
  let ad' := obj (snd (scan ip w)) in
  m_listIpAddressCount ad' = wrap count_bits (m_listIpAddressCount ad - 1) /\
  progress (m_statusDiscovery ad')
    = (if m_listIpAddressNb ad =? 0 then 100
       else progress_value (m_listIpAddressNb ad) (m_listIpAddressCount ad')) /\
  m_listIpAddressNb ad' = m_listIpAddressNb ad /\
  m_params ad' = m_params ad /\
  m_defaultValuesLinks ad' = m_defaultValuesLinks ad /\
  m_poolScan ad' = m_poolScan ad /\
  state (m_statusDiscovery ad') = state (m_statusDiscovery ad).
Proof.
  cbn zeta. destruct (scan_then_progress ip w) as (ad1 & Ho & ->).
  unfold outline in Ho. inversion Ho as [[H1 H2 H3 H4 H5 H6 H7 H8 H9]].
  unfold updateStatusDiscoveryProgress.
  cbn [set_counts set_status m_statusDiscovery m_listIpAddressNb
       m_listIpAddressCount m_params m_defaultValuesLinks m_poolScan
       progress state].
  rewrite H3, H4. repeat split; try assumption.
  destruct (m_listIpAddressNb (obj w) =? 0); reflexivity.
Qed.

(** X9. Whatever the collaborators answer, a task takes exactly one
    address off the remaining count and leaves the total, the request,
    the default links, the pool and the state as they were.  The progress
    it publishes is 100 when the total is 0 and, when the remaining count
    was between 1 and the total (with 100 times the total within the
    counters' range), the quotient of 100 times the completed addresses
    by the total. *)
Theorem scan_completes_one_address ip w :
  let ad := obj w in
  let ad' := obj (snd (scan ip w)) in
  m_listIpAddressCount ad' = wrap count_bits (m_listIpAddressCount ad - 1) /\
  m_listIpAddressNb ad' = m_listIpAddressNb ad /\
  m_params ad' = m_params ad /\
  m_defaultValuesLinks ad' = m_defaultValuesLinks ad /\
  m_poolScan ad' = m_poolScan ad /\
  state (m_statusDiscovery ad') = state (m_statusDiscovery ad) /\
  (m_listIpAddressNb ad = 0 -> progress (m_statusDiscovery ad') = 100) /\
  (32 <= count_bits ->
   1 <= m_listIpAddressCount ad <= m_listIpAddressNb ad ->
   100 * m_listIpAddressNb ad < 2 ^ count_bits ->
   m_listIpAddressCount ad' = m_listIpAddressCount ad - 1 /\
   progress (m_statusDiscovery ad')
     = 100 * (m_listIpAddressNb ad - (m_listIpAddressCount ad - 1))
       / m_listIpAddressNb ad).
Proof.
  cbn zeta.
  destruct (scan_one_address ip w) as (Hc & Hp & Hn & Hpar & Hl & Hpool & Hst).
  repeat (split; [assumption |]). split.
  - intros H0. rewrite Hp, H0. reflexivity.
  - intros Hb Hr Hmax. pose proof (count_bits_pow Hb) as Hpow.
    change (2 ^ 32) with 4294967296 in Hpow.
    assert (Hw : wrap count_bits (m_listIpAddressCount (obj w) - 1)
                 = m_listIpAddressCount (obj w) - 1)
      by (apply wrap_small; lia).
    rewrite Hp, Hc, Hw. split; [reflexivity |].
    assert (E : (m_listIpAddressNb (obj w) =? 0) = false)
      by (apply Z.eqb_neq; lia).
    rewrite E. apply progress_value_floor; lia.
Qed.

Lemma wrap_sub_wrap bits a b :
  wrap bits (wrap bits a - b) = wrap bits (a - b).
Proof. unfold wrap. apply Zminus_mod_idemp_l. Qed.

Lemma scans_count l w :
  let ad' := obj (snd (for_each l scan w)) in
  m_listIpAddressNb ad' = m_listIpAddressNb (obj w) /\
  match l with
  | [] => ad' = obj w
  | _ :: _ =>
      m_listIpAddressCount ad'
        = wrap count_bits (m_listIpAddressCount (obj w) - Z.of_nat (List.length l)) /\
      progress (m_statusDiscovery ad')
        = (if m_listIpAddressNb (obj w) =? 0 then 100
           else progress_value (m_listIpAddressNb (obj w))
                               (m_listIpAddressCount ad'))
  end.
Proof.
  revert w. induction l as [| ip l IH]; intros w; cbn zeta.
  - split; reflexivity.
  - cbn [for_each]. unfold bind.
    pose proof (scan_one_address ip w) as Hs. cbn zeta in Hs.
    destruct (scan ip w) as [[] w1]. cbn [snd] in Hs.
    destruct Hs as (Hc & Hp & Hn & _).
    specialize (IH w1). cbn zeta in IH. destruct IH as (I1 & I2).
    rewrite Hn in I1. split; [exact I1 |].
    destruct l as [| ip' l].
    + rewrite I2. split; [exact Hc | exact Hp].
    + destruct I2 as (I2 & I3). rewrite Hn in I3. split; [| exact I3].
      rewrite I2, Hc, wrap_sub_wrap. f_equal. cbn [List.length]. lia.
Qed.

(** X10. After an accepted [start] with at least one address, once every
    dispatched task has run the remaining count is 0 and the progress is
    100; the state stays IN_PROGRESS until [scanCheck] ends the scan. *)
Theorem all_tasks_done_is_100 inp ad :
  state (m_statusDiscovery ad) <> IN_PROGRESS ->
  32 <= count_bits ->
  addresses_of (discovery inp) <> [] ->
  100 * Z.of_nat (List.length (addresses_of (discovery inp))) < 2 ^ count_bits ->
  let ad1 := snd (start inp ad) in
  let ad2 := obj (snd (for_each (tasks (m_poolScan ad1)) scan (mkSW ad1 []))) in
  m_listIpAddressCount ad2 = 0 /\
  progress (m_statusDiscovery ad2) = 100 /\
  state (m_statusDiscovery (snd (scanCheck 0 ad2))) = TERMINATED /\
  progress (m_statusDiscovery (snd (scanCheck 0 ad2))) = 100.
Proof.
  intros Hst Hb Hne Hmax. cbn zeta.
  rewrite (start_accepted inp ad Hst). cbn [snd m_poolScan tasks].
  set (l := addresses_of (discovery inp)) in *.
  set (n := Z.of_nat (List.length l)) in *.
  pose proof (count_bits_pow Hb) as Hp. change (2 ^ 32) with 4294967296 in Hp.
  assert (Hn : 1 <= n).
  { subst n. destruct l; [contradiction Hne; reflexivity | cbn [List.length]; lia]. }
  assert (Hw : wrap count_bits n = n) by (apply wrap_small; lia).
  rewrite Hw.
  match goal with |- context [for_each l scan ?w0] =>
    pose proof (scans_count l w0) as H; set (w := w0) in *
  end.
  cbn zeta in H. destruct H as (H1 & H2).
  destruct l as [| ip l]; [contradiction Hne; reflexivity |].
  destruct H2 as (H2 & H3).
  cbn [w obj m_listIpAddressCount m_listIpAddressNb] in H2, H3.
  fold n in H2, H3.
  rewrite Z.sub_diag in H2. rewrite (wrap_small count_bits 0) in H2 by lia.
  rewrite H2 in H3.
  assert (E : (n =? 0) = false) by (apply Z.eqb_neq; lia).
  rewrite E in H3.
  rewrite progress_value_floor in H3 by lia.
  rewrite Z.sub_0_r, Z.div_mul in H3 by lia.
  cbn [scanCheck Nat.eqb snd set_state set_status m_statusDiscovery state progress].
  repeat split; assumption.
Qed.

(** X11. A request without any address is accepted: no task is dispatched, so
    no completion ever updates the progress, and [scanCheck] ends the
    scan as TERMINATED with the progress still 0. *)
Theorem empty_scan_ends_at_progress_0 inp ad :
  state (m_statusDiscovery ad) <> IN_PROGRESS ->
  addresses_of (discovery inp) = [] ->
  let ad1 := snd (start inp ad) in
  fst (start inp ad) = Ok tt /\
  tasks (m_poolScan ad1) = [] /\
  m_listIpAddressNb ad1 = 0 /\
  m_statusDiscovery (snd (scanCheck 0 ad1)) = mkStatus TERMINATED 0 0 0 0 0 0.
Proof.
  intros Hst He. cbn zeta.
  rewrite (start_accepted inp ad Hst), He. cbn.
  repeat split.
Qed.

Lemma published_app l e :
  published (l ++ [e]) = (published l + (if is_counted e then 1 else 0))%nat.
Proof.
  unfold published. rewrite filter_app, length_app. cbn [filter].
  destruct (is_counted e); reflexivity.
Qed.

Lemma tally_ret {A} (a : A) : keeps_tally (ret a).
Proof. intros d0 w H. exact H. Qed.

Lemma tally_bind {A B} (c : St ScanWorld A) (k : A -> St ScanWorld B) :
  keeps_tally c -> (forall a, keeps_tally (k a)) -> keeps_tally (bind c k).
Proof.
  intros Hc Hk d0 w H. unfold bind. specialize (Hc d0 w H).
  destruct (c w) as [a w1]. apply Hk, Hc.
Qed.

Lemma tally_for_each {A} (l : list A) (body : A -> St ScanWorld unit) :
  (forall a, keeps_tally (body a)) -> keeps_tally (for_each l body).
Proof.
  intros Hb. induction l as [| a l IH]; cbn [for_each].
  - apply tally_ret.
  - apply tally_bind; [apply Hb | intros _; exact IH].
Qed.

(** Recording a publication and counting it when it was accepted keeps
    the total in step with the log. *)
Lemma tally_publication req res (next : St ScanWorld unit) :
  keeps_tally next ->
  keeps_tally
    (record (Create req res) ;;
     match res with
     | Ok _ => on_obj (updateStatusDiscoveryCounters (req_sub_type req)) ;; next
     | Unexpected _ => ret tt
     end)%st.
Proof.
  intros Hn d0 w H. unfold bind at 1. unfold record, modify.
  destruct res as [name | msg].
  - unfold bind, on_obj, modify. apply Hn.
    unfold tallied in *. cbn [obj log]. rewrite counters_discovered.
    rewrite published_app. cbn [is_counted].
    destruct (counted_subtype (req_sub_type req)).
    + rewrite H. unfold incr. rewrite wrap_wrap_add. f_equal. lia.
    + rewrite H. f_equal. lia.
  - unfold ret. cbn [snd]. unfold tallied in *. cbn [obj log].
    rewrite published_app. cbn [is_counted]. rewrite H. f_equal. lia.
Qed.

Lemma tally_create_sensor ip name sensor :
  keeps_tally (create_sensor ip name sensor).
Proof.
  unfold create_sensor. intros d0 w H. unfold bind at 1. unfold get.
  match goal with
  | |- context [record (Create ?r ?x)] =>
      pose proof (tally_publication r x (ret tt) (tally_ret tt) d0 w H) as T;
      destruct x as [nm | msg]
  end; cbn [is_ok req_sub_type] in *.
  - unfold bind in *. unfold record, modify, on_obj, ret in *. exact T.
  - exact T.
Qed.

Lemma tally_create_asset ip asset : keeps_tally (create_asset ip asset).
Proof.
  unfold create_asset. intros d0 w H. unfold bind at 1. unfold get.
  match goal with
  | |- context [record (Create ?r ?x)] =>
      destruct x as [nm | msg] eqn:E
  end.
  - match goal with
    | |- context [record (Create ?r _)] =>
        pose proof (tally_publication r (Ok nm)
                      (for_each (a_sensors asset) (create_sensor ip nm))
                      (tally_for_each _ _ (tally_create_sensor ip nm)) d0 w H) as T
    end.
    cbn [req_sub_type] in T. exact T.
  - match goal with
    | |- context [record (Create ?r _)] =>
        pose proof (tally_publication r (Unexpected msg) (ret tt)
                      (tally_ret tt) d0 w H) as T
    end.
    exact T.
Qed.

Lemma tally_try Try_in found : keeps_tally (record (Try Try_in found)).
Proof.
  intros d0 w H. unfold tallied in *. cbn [record modify snd obj log].
  rewrite published_app. cbn [is_counted]. rewrite H. f_equal. lia.
Qed.

Lemma tally_try_documents ip elt docs : keeps_tally (try_documents ip elt docs).
Proof.
  induction docs as [| doc rest IH]; cbn [try_documents]; [apply tally_ret |].
  apply tally_bind; [apply tally_try |]. intros _.
  destruct (getAssets _); [| exact IH].
  apply tally_bind; [| intros; apply tally_ret].
  apply tally_for_each. intros asset. apply tally_create_asset.
Qed.

Lemma tally_try_protocols ip l : keeps_tally (try_protocols ip l).
Proof.
  induction l as [| elt rest IH]; cbn [try_protocols]; [apply tally_ret |].
  destruct (Protocols.reachable elt); [| exact IH].
  apply tally_bind; [intros d0 w H; exact H |]. intros w.
  apply tally_bind; [apply tally_try_documents |].
  intros [|]; [apply tally_ret | exact IH].
Qed.

Lemma tally_scan ip : keeps_tally (scan ip).
Proof.
  unfold scan. apply tally_bind; [intros d0 w H; exact H |]. intros w.
  assert (Hp : keeps_tally (on_obj updateStatusDiscoveryProgress))
    by (intros d0 w1 H; exact H).
  destruct (getProtocols _); [| exact Hp].
  apply tally_bind; [apply tally_try_protocols | intros _; exact Hp].
Qed.

(** X12. The total discovered counter counts exactly the publications of the
    task that were accepted and whose sub type is one of the four counted
    ones: publications that fail, and accepted ones of another sub type,
    leave it alone. *)
Theorem scan_counts_accepted_publications ip ad :
  let w' := snd (scan ip (mkSW ad [])) in
  0 <= discovered (m_statusDiscovery ad) ->
  discovered (m_statusDiscovery ad) + Z.of_nat (published (log w'))
    < 2 ^ counter_bits ->
  discovered (m_statusDiscovery (obj w'))
    = discovered (m_statusDiscovery ad) + Z.of_nat (published (log w')).
Proof.
  cbn zeta. intros H0 Hlt.
  assert (T : tallied (discovered (m_statusDiscovery ad)) (mkSW ad [])).
  { unfold tallied. cbn [obj log published filter List.length Z.of_nat].
    rewrite Z.add_0_r. symmetry. apply wrap_small. lia. }
  apply (tally_scan ip) in T. unfold tallied in T. rewrite T.
  apply wrap_small. lia.
Qed.

Lemma try_documents_all_fail ip elt docs w :
  Forall (fun p => is_ok (getAssets p) = false)
         (map (mkAssetsIn ip (Protocols.protocol elt) (Protocols.port elt)) docs) ->
  try_documents ip elt docs w
    = (false,
       mkSW (obj w)
            (log w ++ map (fun p => Try p false)
                          (map (mkAssetsIn ip (Protocols.protocol elt)
                                           (Protocols.port elt)) docs))).
Proof.
  revert w. induction docs as [| doc docs IH]; intros w Hf.
  - cbn. rewrite app_nil_r. destruct w; reflexivity.
  - cbn [map] in Hf. inversion Hf as [| ? ? Hd Hrest]; subst.
    cbn [try_documents map]. unfold bind at 1. unfold record, modify.
    destruct (getAssets _) as [out | msg]; [discriminate Hd |].
    rewrite IH by exact Hrest. cbn [obj log]. rewrite <- app_assoc. reflexivity.
Qed.

Lemma try_protocols_all_fail ip l w :
  Forall (fun p => is_ok (getAssets p) = false)
         (candidates ip l (documents (discovery (m_params (obj w))))) ->
  try_protocols ip l w
    = (tt,
       mkSW (obj w)
            (log w ++ map (fun p => Try p false)
                          (candidates ip l
                             (documents (discovery (m_params (obj w))))))).
Proof.
  revert w. induction l as [| elt l IH]; intros w Hf.
  - cbn. rewrite app_nil_r. destruct w; reflexivity.
  - cbn [try_protocols candidates flat_map] in *.
    destruct (Protocols.reachable elt).
    + apply Forall_app in Hf. destruct Hf as [Hd Hrest].
      unfold bind at 1. unfold get. unfold bind at 1.
      rewrite try_documents_all_fail by exact Hd.
      rewrite IH by exact Hrest. cbn [obj log].
      rewrite map_app, <- app_assoc. reflexivity.
    + apply IH, Hf.
Qed.

(** X13. When no enumeration succeeds, the task tries every pair of a
    reachable protocol and a credential, in order, publishes nothing and
    leaves the counters alone; only the progress is updated. *)
Theorem scan_without_success_tries_all ip ad listProtocols :
  getProtocols (Protocols.mkIn ip (protocols (discovery (m_params ad))))
    = Ok listProtocols ->
  Forall (fun p => is_ok (getAssets p) = false)
         (candidates ip listProtocols (documents (discovery (m_params ad)))) ->
  scan ip (mkSW ad [])
    = (tt,
       mkSW (updateStatusDiscoveryProgress ad)
            (map (fun p => Try p false)
                 (candidates ip listProtocols
                    (documents (discovery (m_params ad)))))).
Proof.
  intros Hg Hf. unfold scan, bind, get. cbn [obj]. rewrite Hg.
  rewrite try_protocols_all_fail by exact Hf. reflexivity.
Qed.

(** X14. When the probe of the address fails, the task enumerates nothing and
    publishes nothing; it only reports its completion. *)
Theorem scan_of_unreachable_host ip ad msg :
  getProtocols (Protocols.mkIn ip (protocols (discovery (m_params ad))))
    = Unexpected msg ->
  scan ip (mkSW ad []) = (tt, mkSW (updateStatusDiscoveryProgress ad) []).
Proof.
  intros Hg. unfold scan, bind, get. cbn [obj]. rewrite Hg. reflexivity.
Qed.

(** X15. Every enumeration of a task is for the address of the task, for a
    protocol (with its port) that the probe reported reachable, and with
    a credential of the request. *)
Theorem scan_tries_only_reachable_protocols ip ad listProtocols :
  getProtocols (Protocols.mkIn ip (protocols (discovery (m_params ad))))
    = Ok listProtocols ->
  Forall (fun a =>
            in_address a = ip /\
            List.In (in_credentialId a) (documents (discovery (m_params ad))) /\
            exists elt, List.In elt listProtocols /\
                        Protocols.reachable elt = true /\
                        in_protocol a = Protocols.protocol elt /\
                        in_port a = Protocols.port elt)
         (tried (log (snd (scan ip (mkSW ad []))))).
Proof.
  intros Hg.
  destruct (try_protocols ip listProtocols (mkSW ad [])) as [[] w1] eqn:Et.
  assert (Es : scan ip (mkSW ad [])
               = (tt, mkSW (updateStatusDiscoveryProgress (obj w1)) (log w1))).
  { unfold scan, bind, get. cbn [obj]. rewrite Hg, Et. reflexivity. }
  rewrite Es. cbn [snd log].
  apply try_protocols_log in Et. cbn [obj log] in Et.
  destruct Et as (found & (failed & rest & Hc & _ & _ & Ht & _) & _).
  cbn [tried flat_map app] in Ht. rewrite Ht.
  apply Forall_forall. intros a Ha.
  assert (Hin : List.In a (candidates ip listProtocols
                             (documents (discovery (m_params ad))))).
  { rewrite Hc. apply in_app_iff. apply in_app_iff in Ha.
    destruct Ha as [Ha | Ha]; [left; exact Ha | right].
    destruct rest as [| p rest]; [destruct Ha |].
    cbn [firstn] in Ha. destruct Ha as [<- | []]. left. reflexivity. }
  unfold candidates in Hin. apply in_flat_map in Hin.
  destruct Hin as (elt & Hel & Hin).
  destruct (Protocols.reachable elt) eqn:Er; [| destruct Hin].
  apply in_map_iff in Hin. destruct Hin as (doc & <- & Hdoc).
  cbn [in_address in_credentialId in_protocol in_port].
  split; [reflexivity |]. split; [exact Hdoc |].
  exists elt. repeat split; assumption.
Qed.

Lemma sensor_request_params ad1 ad2 name sensor :
  m_params ad1 = m_params ad2 ->
  sensor_request ad1 name sensor = sensor_request ad2 name sensor.
Proof.
  intros H. unfold sensor_request, parent_or_empty. rewrite H. reflexivity.
Qed.

Lemma create_sensor_log ip name sensor w :
  log (snd (create_sensor ip name sensor w))
    = log w ++ [Create (sensor_request (obj w) name sensor)
                       (create_run (sensor_request (obj w) name sensor))].
Proof.
  assert (E : forall ad,
             snd (updateExt
                    ((s_ext sensor
                      ++ [[("logical_asset", parent_or_empty ad);
                           ("read_only", "false")]])
                     ++ [[("parent_name.1", name); ("read_only", "false")]]) [])
             = flat_map contribution (s_ext sensor)
               ++ [("logical_asset", mkMapExtObj (parent_or_empty ad) false true);
                   ("parent_name.1", mkMapExtObj name false true)]).
  { intros ad. unfold updateExt. cbn [snd]. rewrite updateExt_fold.
    cbn [app]. rewrite !flat_map_app, <- app_assoc. reflexivity. }
  unfold create_sensor. unfold bind, get, record, modify. cbn [obj log].
  rewrite E. fold (sensor_request (obj w) name sensor).
  destruct (is_ok _); reflexivity.
Qed.

Lemma sensors_log ip name sensors w :
  log (snd (for_each sensors (create_sensor ip name) w))
    = log w ++ map (fun s => Create (sensor_request (obj w) name s)
                                    (create_run (sensor_request (obj w) name s)))
                   sensors.
Proof.
  revert w. induction sensors as [| s sensors IH]; intros w; cbn [for_each map].
  - cbn. symmetry. apply app_nil_r.
  - unfold bind.
    pose proof (create_sensor_log ip name s w) as Hl.
    pose proof (quiet_create_sensor ip name s w) as (_ & _ & Hp).
    destruct (create_sensor ip name s w) as [[] w1]. cbn [snd] in Hl, Hp.
    rewrite IH, Hl, <- app_assoc. cbn [app]. f_equal. f_equal.
    apply map_ext. intros s'.
    rewrite (sensor_request_params (obj w1) (obj w) name s' Hp). reflexivity.
Qed.

(** X16. For one candidate the task publishes the asset and then, only if that
    publication was accepted, each of its sensors in order.  A sensor
    request has the name of the published asset as parent, no power
    link, and the translated attributes of the sensor followed by
    [logical_asset] (the parent of the request, empty for "0") and
    [parent_name.1] (the name of the published asset), both writable. *)
Theorem create_asset_publishes_asset_then_sensors ip asset w :
  let req := asset_request (obj w) ip asset in
  log (snd (create_asset ip asset w))
    = log w ++
      Create req (create_run req) ::
      match create_run req with
      | Ok name =>
          map (fun s => Create (sensor_request (obj w) name s)
                               (create_run (sensor_request (obj w) name s)))
              (a_sensors asset)
      | Unexpected _ => []
      end.
Proof.
  cbn zeta. unfold create_asset. unfold bind at 1. unfold get.
  unfold bind at 1. unfold record at 1, modify. cbn [obj log].
  assert (E : snd (updateExt (a_ext asset) [])
              = flat_map contribution (a_ext asset)).
  { unfold updateExt. cbn [snd]. rewrite updateExt_fold. reflexivity. }
  rewrite E. fold (asset_request (obj w) ip asset).
  destruct (create_run (asset_request (obj w) ip asset)) as [name | msg].
  - unfold bind at 1. unfold on_obj at 1, modify.
    rewrite sensors_log. cbn [log obj]. rewrite <- app_assoc. cbn [app].
    f_equal. f_equal. apply map_ext. intros s.
    rewrite (sensor_request_params _ (obj w) name s); [reflexivity |].
    pose proof (quiet_counters (a_subtype asset) w) as (_ & _ & Hp).
    exact Hp.
  - unfold ret. cbn [snd log]. reflexivity.
Qed.

End TaskFacts.

Section ProbeMore.
Import Protocols ProtocolsDefs ProbeNotions.
Variable net : Net.

Ltac io :=
  unfold bind, emit, ret, set_errno, get_errno;
  repeat (progress cbn [fst snd trace errno is_ok negb andb orb]).

Lemma tryPowercom_accepts i port w :
  is_ok (fst (tryPowercom net i port w)) = powercom_accepts net (address i) port /\
  trace (snd (tryPowercom net i port w))
    = trace w ++ [EvHttpGet "https" (address i) port powercom_path] /\
  (powercom_accepts net (address i) port = true <->
   exists content deviceType,
     neon_get net "https" (address i) port powercom_path = Ok content /\
     yaml_device_type net content = Ok deviceType /\
     (deviceType = "ups" \/ deviceType = "ats")).
Proof.
  unfold tryPowercom, powercom_accepts. io.
  destruct (neon_get net "https" (address i) port powercom_path)
    as [content | e] eqn:En.
  - destruct (yaml_device_type net content) as [t | e] eqn:Ey.
    + split; [| split].
      * destruct (t =? "ups")%string; [reflexivity |].
        destruct (t =? "ats")%string; reflexivity.
      * destruct (t =? "ups")%string; [reflexivity |].
        destruct (t =? "ats")%string; reflexivity.
      * rewrite orb_true_iff, !String.eqb_eq. split.
        -- intros H. exists content, t.
           split; [reflexivity | split; [exact Ey | exact H]].
        -- intros (c & t' & Hc & Ht & H). inversion Hc; subst c.
           rewrite Ey in Ht. inversion Ht; subst. exact H.
    + repeat split; try discriminate.
      intros (c & t' & Hc & Ht & _). inversion Hc; subst c.
      rewrite Ey in Ht. discriminate.
  - repeat split; try discriminate.
    intros (c & t' & Hc & _). discriminate.
Qed.

(** X21. [tryPowercom] makes exactly one request, and accepts the device
    exactly when the resource is fetched, parses, and names the device
    type "ups" or "ats". *)
Theorem tryPowercom_verdict i port w :
  is_ok (fst (tryPowercom net i port w)) = powercom_accepts net (address i) port /\
  trace (snd (tryPowercom net i port w))
    = trace w ++ [EvHttpGet "https" (address i) port powercom_path] /\
  (powercom_accepts net (address i) port = true <->
   exists content deviceType,
     neon_get net "https" (address i) port powercom_path = Ok content /\
     yaml_device_type net content = Ok deviceType /\
     (deviceType = "ups" \/ deviceType = "ats")).
Proof. exact (tryPowercom_accepts i port w). Qed.

Lemma tryXmlPdc_accepts i port w :
  is_ok (fst (tryXmlPdc net i port w)) = xml_accepts net (address i) port /\
  trace (snd (tryXmlPdc net i port w))
    = trace w ++
      EvHttpGet "http" (address i) port "product.xml" ::
      match xml_product net (address i) port with
      | Ok prod =>
          if supported_card prod
          then [EvHttpGet "http" (address i) port (summary_url prod)]
          else []
      | Unexpected _ => []
      end.
Proof.
  unfold tryXmlPdc, xml_accepts, supported_card. io.
  destruct (xml_product net (address i) port) as [prod | e]; [| split; reflexivity].
  destruct ((name prod =? "Network Management Card")%string
            || (name prod =? "HPE UPS Network Module")%string);
    cbn [negb andb]; [| split; reflexivity].
  destruct (pi_protocol prod =? "XML.V4")%string; cbn [negb];
    [split; reflexivity |].
  io. rewrite <- app_assoc. cbn [app].
  destruct (xml_properties net (address i) port (summary_url prod));
    split; reflexivity.
Qed.

(** X22. [tryXmlPdc] accepts the device exactly when the product description
    is fetched, names a supported card that does not speak XML.V4, and
    the summary document is fetched too.  It always requests
    [product.xml] first, and requests the summary only for a supported
    card. *)
Theorem tryXmlPdc_verdict i port w :
  is_ok (fst (tryXmlPdc net i port w)) = xml_accepts net (address i) port /\
  trace (snd (tryXmlPdc net i port w))
    = trace w ++
      EvHttpGet "http" (address i) port "product.xml" ::
      match xml_product net (address i) port with
      | Ok prod =>
          if supported_card prod
          then [EvHttpGet "http" (address i) port (summary_url prod)]
          else []
      | Unexpected _ => []
      end.
Proof. exact (tryXmlPdc_accepts i port w). Qed.

(** X23. [timeoutConnect] fails only when the connection is in progress and
    [poll] returns neither 1 nor 0.  A connection refused at once, and a
    connection that times out, are both reported as success, with
    [errno] set to the cause. *)
Theorem timeoutConnect_verdict addr port w :
  let r := timeoutConnect net addr port w in
  let ret_ := fst (sys_connect net addr port) in
  let err := snd (sys_connect net addr port) in
  let polled := sys_poll net addr port in
  (is_ok (fst r) = false <->
   ret_ <> 0 /\ err = EINPROGRESS /\ polled <> 1 /\ polled <> 0) /\
  (ret_ <> 0 -> err <> EINPROGRESS -> errno (snd r) = err) /\
  (ret_ <> 0 -> err = EINPROGRESS -> polled = 0 -> errno (snd r) = ETIMEDOUT) /\
  (ret_ <> 0 -> err = EINPROGRESS -> polled = 1 ->
   fst (sys_getsockopt net addr port) = 0 ->
   errno (snd r) = snd (sys_getsockopt net addr port)).
Proof.
  cbn zeta. unfold timeoutConnect. io.
  destruct (sys_connect net addr port) as [r e]. cbn [fst snd].
  destruct (Z.eqb_spec r 0) as [Er | Er]; io.
  - subst r. repeat split; try (intros; congruence); try discriminate.
    intros (C & _). contradiction C; reflexivity.
  - destruct (Z.eqb_spec e EINPROGRESS) as [Ee | Ee]; io.
    + subst e.
      destruct (Z.eqb_spec (sys_poll net addr port) 1) as [E1 | E1]; io.
      * destruct (sys_getsockopt net addr port) as [gr ov]. cbn [fst snd].
        destruct (Z.eqb_spec gr 0); io;
          repeat split; try (intros; congruence); try discriminate;
          try (intros (_ & _ & C & _); contradiction).
        all: intros; rewrite E1 in *; discriminate.
      * destruct (Z.eqb_spec (sys_poll net addr port) 0) as [E0 | E0]; io;
          repeat split; try (intros; congruence); try discriminate;
          try (intros (_ & _ & _ & C); contradiction); try assumption.
    + repeat split; try (intros; congruence); try discriminate.
      intros (_ & C & _). contradiction.
Qed.

Lemma count_events_app f l e :
  count_events f (l ++ [e])
    = (count_events f l + (if f e then 1 else 0))%nat.
Proof.
  unfold count_events. rewrite filter_app, length_app. cbn [filter].
  destruct (f e); reflexivity.
Qed.

Lemma timeoutConnect_count f addr port w :
  f EvConnect = false -> f EvPoll = false -> f EvGetsockopt = false ->
  count_events f (trace (snd (timeoutConnect net addr port w)))
    = count_events f (trace w).
Proof.
  intros H1 H2 H3. unfold timeoutConnect. io.
  destruct (sys_connect net addr port) as [r e].
  destruct (r =? 0); io; [rewrite count_events_app, H1; lia |].
  destruct (e =? EINPROGRESS); io; [| rewrite count_events_app, H1; lia].
  destruct (sys_poll net addr port =? 1); io.
  - destruct (sys_getsockopt net addr port) as [gr ov].
    destruct (gr =? 0); io; rewrite !count_events_app, H1, H2, H3; lia.
  - destruct (sys_poll net addr port =? 0); io;
      rewrite !count_events_app, H1, H2; lia.
Qed.

Lemma write_loop_count f addr port n i w :
  (forall k, f (EvWrite k) = false) ->
  count_events f (trace (snd (write_loop net addr port n i w)))
    = count_events f (trace w).
Proof.
  intros Hf. revert i w. induction n as [| n IH]; intros i w; cbn [write_loop].
  - reflexivity.
  - io. destruct (sys_write net addr port i =? -1); io.
    + rewrite count_events_app, Hf. lia.
    + rewrite IH. cbn [trace]. rewrite count_events_app, Hf. lia.
Qed.

(** X24. [trySnmp] releases what it acquires on every path: the socket is
    closed exactly once when it was created, the address list is freed
    exactly once when it was obtained, and nothing is closed or freed
    otherwise. *)
Theorem trySnmp_releases_resources i port w :
  let w' := snd (trySnmp net i port w) in
  let resolved := sys_getaddrinfo net (address i) port =? 0 in
  let opened := negb (fst (sys_socket net (address i) port) =? -1) in
  count_events is_free (trace w')
    = (count_events is_free (trace w) + (if resolved then 1 else 0))%nat /\
  count_events is_close (trace w')
    = (count_events is_close (trace w)
       + (if resolved && opened then 1 else 0))%nat.
Proof.
  cbn zeta. unfold trySnmp. io.
  destruct (sys_getaddrinfo net (address i) port =? 0); cbn [negb andb]; io.
  2:{ rewrite !count_events_app. cbn [is_free is_close]. lia. }
  destruct (sys_socket net (address i) port) as [sock e]. cbn [fst].
  destruct (sock =? -1); cbn [negb]; io.
  { rewrite !count_events_app. cbn [is_free is_close]. lia. }
  match goal with
  | |- context [timeoutConnect net ?a ?p ?w0] =>
      pose proof (timeoutConnect_count is_free a p w0 eq_refl eq_refl eq_refl) as Hf;
      pose proof (timeoutConnect_count is_close a p w0 eq_refl eq_refl eq_refl) as Hc;
      destruct (timeoutConnect net a p w0) as [c w1]
  end.
  cbn [snd trace] in Hf, Hc. rewrite !count_events_app in Hf, Hc.
  cbn [is_free is_close] in Hf, Hc.
  destruct c as [[] | msg]; io.
  - pose proof (write_loop_count is_free (address i) port N 0 w1
                  (fun _ => eq_refl)) as Lf.
    pose proof (write_loop_count is_close (address i) port N 0 w1
                  (fun _ => eq_refl)) as Lc.
    destruct (write_loop net (address i) port N 0 w1) as [r w2].
    cbn [snd] in Lf, Lc. io. rewrite !count_events_app.
    cbn [is_free is_close]. lia.
  - rewrite !count_events_app. cbn [is_free is_close]. lia.
Qed.

Lemma write_loop_stops addr port n i k w :
  (k < n)%nat ->
  sys_write net addr port (i + k) = -1 ->
  (forall j, (j < k)%nat -> sys_write net addr port (i + j) <> -1) ->
  fst (write_loop net addr port n i w) = Unexpected "Socket write failed" /\
  writes (trace (snd (write_loop net addr port n i w)))
    = (writes (trace w) + S k)%nat.
Proof.
  revert i k w. induction n as [| n IH]; intros i k w Hk Hfail Hok; [lia |].
  cbn [write_loop]. io. destruct k as [| k].
  - rewrite Nat.add_0_r in Hfail. rewrite Hfail. cbn [Z.eqb Pos.eqb]. io.
    rewrite writes_app. cbn [is_write]. split; [reflexivity | lia].
  - assert (E : (sys_write net addr port i =? -1) = false).
    { apply Z.eqb_neq. specialize (Hok 0%nat). rewrite Nat.add_0_r in Hok.
      apply Hok. lia. }
    rewrite E.
    destruct (IH (S i) k (mkWorld (trace w ++ [EvWrite i]) (errno w))) as [H1 H2].
    + lia.
    + replace (S i + k)%nat with (i + S k)%nat by lia. exact Hfail.
    + intros j Hj. replace (S i + j)%nat with (i + S j)%nat by lia.
      apply Hok. lia.
    + split; [exact H1 |]. rewrite H2. cbn [trace]. rewrite writes_app.
      cbn [is_write]. lia.
Qed.

(** X25. On a socket that was set up, the write loop stops at the first write
    that fails: when write number [k] (counted from 0, [k] below 20) is
    the first to return -1, the probe fails after exactly [k + 1]
    writes. *)
Theorem trySnmp_stops_at_first_failed_write i port k w :
  snmp_connected net (address i) port = true ->
  (k < 20)%nat ->
  sys_write net (address i) port k = -1 ->
  (forall j, (j < k)%nat -> sys_write net (address i) port j <> -1) ->
  fst (trySnmp net i port w) = Unexpected "Socket write failed" /\
  writes (trace (snd (trySnmp net i port w))) = (writes (trace w) + S k)%nat.
Proof.
  intros Hc Hk Hfail Hok. unfold snmp_connected in Hc.
  apply andb_true_iff in Hc. destruct Hc as [Hc Hconn].
  apply andb_true_iff in Hc. destruct Hc as [Hg Hs].
  unfold trySnmp. io. rewrite Hg. cbn [negb]. io.
  destruct (sys_socket net (address i) port) as [sock e]. cbn [fst] in Hs.
  apply negb_true_iff in Hs. rewrite Hs.
  match goal with
  | |- context [timeoutConnect net ?a ?p ?w0] =>
      pose proof (timeoutConnect_run net a p w0) as Ht;
      destruct (timeoutConnect net a p w0) as [c w1]
  end.
  cbn zeta in Ht. cbn [fst snd trace] in Ht. destruct Ht as [Hok' Hw].
  rewrite Hconn in Hok'. rewrite !writes_app in Hw. cbn [is_write] in Hw.
  destruct c as [[] | msg]; [| discriminate Hok'].
  destruct (write_loop_stops (address i) port N 0 k w1) as [H1 H2];
    [exact Hk | exact Hfail | exact Hok |].
  destruct (write_loop net (address i) port N 0 w1) as [r w2].
  cbn [fst snd] in H1, H2. io. rewrite !writes_app. cbn [is_write].
  split; [exact H1 | lia].
Qed.

(** X26. When the host does not answer the liveness check, [run] fails without
    a single result and without attempting any protocol: the only call is
    the check itself. *)
Theorem run_unavailable_host i out w :
  address i <> fake_address -> ping net (address i) = false ->
  fst (run net i out w)
    = Unexpected ("Host is not available: " +++ address i) /\
  trace (snd (run net i out w)) = trace w ++ [EvPing (address i)].
Proof.
  intros Hreal Hdown. unfold run. apply String.eqb_neq in Hreal.
  rewrite Hreal. io. rewrite Hdown. split; reflexivity.
Qed.

Lemma probe_powercom i label port w :
  fst (probe net i (Powercom, label, port) w)
    = mkReturn label port (powercom_accepts net (address i) port)
        (Some (if powercom_accepts net (address i) port then Yes else No)).
Proof.
  unfold probe. unfold bind.
  pose proof (tryPowercom_accepts i port w) as (H & _).
  destruct (tryPowercom net i port w) as [res w']. cbn [fst] in H.
  rewrite <- H. destruct (is_ok res); reflexivity.
Qed.

Lemma probe_xml i label port w :
  fst (probe net i (Xml, label, port) w)
    = mkReturn label port (xml_accepts net (address i) port)
        (Some (if xml_accepts net (address i) port then Yes else No)).
Proof.
  unfold probe. unfold bind.
  pose proof (tryXmlPdc_accepts i port w) as (H & _).
  destruct (tryXmlPdc net i port w) as [res w']. cbn [fst] in H.
  rewrite <- H. destruct (is_ok res); reflexivity.
Qed.

(** X27. For a live address the three verdicts are independent of each other
    and of the state the probe starts in: each protocol is reachable
    exactly when its own answers are accepted, with availability Yes for
    the two HTTP protocols, Maybe for SNMP, and No when not reachable. *)
Theorem run_verdicts i :
  address i <> fake_address -> ping net (address i) = true ->
  let bp := powercom_accepts net (address i) 443 in
  let bx := xml_accepts net (address i) 80 in
  let bs := snmp_connected net (address i) 161
            && writes_succeed net (address i) 161 0 20 in
  run_result net i
    = Ok [mkReturn "nut_powercom" 443 bp (Some (if bp then Yes else No));
          mkReturn "nut_xml_pdc" 80 bx (Some (if bx then Yes else No));
          mkReturn "nut_snmp" 161 bs (Some (if bs then Maybe else No))].
Proof.
  intros Hreal Hup. cbn zeta.
  destruct (run_real_address net i Hreal Hup)
    as (w1 & w2 & w3 & _ & _ & _ & Hrun).
  unfold run_result. rewrite Hrun. cbn [fst].
  rewrite probe_powercom, probe_xml.
  destruct (probe_snmp net i "nut_snmp" 161 w3) as (Hs & _). cbn zeta in Hs.
  rewrite Hs. reflexivity.
Qed.

Lemma probe_all_appends i l out w :
  probe_all net i l out w
    = (out ++ fst (probe_all net i l [] w), snd (probe_all net i l [] w)).
Proof.
  revert out w. induction l as [| aux l IH]; intros out w; cbn [probe_all].
  - unfold ret. cbn [fst snd]. rewrite app_nil_r. reflexivity.
  - unfold bind. destruct (probe net i aux w) as [r w1].
    rewrite (IH (out ++ [r])), (IH ([] ++ [r])). cbn [fst snd app].
    rewrite <- app_assoc. reflexivity.
Qed.

(** X28. [run] only appends: the results already in the list it is handed are
    kept in front, and what it appends, like the calls it makes, does not
    depend on them. *)
Theorem run_appends_to_out i out w :
  run net i out w
    = (match fst (run net i [] w) with
       | Ok o => Ok (out ++ o)
       | Unexpected e => Unexpected e
       end,
       snd (run net i [] w)).
Proof.
  unfold run. destruct (address i =? fake_address)%string; [reflexivity |].
  io. destruct (ping net (address i)); io; [| reflexivity].
  rewrite (probe_all_appends i tries out).
  destruct (probe_all net i tries [] _) as [o w']. reflexivity.
Qed.

End ProbeMore.

Section ExtMore.
Context {env : Environment}.

Lemma contribution_names m :
  (List.length (contribution m) <= 1)%nat /\
  Forall (fun kv => fst kv <> "" /\ fst kv <> "read_only"
                    /\ List.In (fst kv, value (snd kv)) m)
         (contribution m).
Proof.
  unfold contribution, last_attribute.
  destruct (find _ (rev m)) as [[k v] |] eqn:Ef; [| split; [cbn; lia | constructor]].
  apply find_some in Ef. destruct Ef as [Hin Hk]. cbn [fst] in Hk.
  apply in_rev in Hin. apply negb_true_iff, String.eqb_neq in Hk.
  destruct (String.eqb_spec k ""); [split; [cbn; lia | constructor] |].
  split; [cbn; lia |]. constructor; [| constructor].
  cbn [fst snd value]. auto.
Qed.

(** X17. [updateExt] keeps the attributes already in its output and appends
    at most one per input map; an appended attribute is never named
    [read_only] nor by the empty string, and its name and value are an
    entry of one of the input maps. *)
Theorem updateExt_appends_named_attributes extIn extOut :
  exists added,
    snd (updateExt extIn extOut) = extOut ++ added /\
    (List.length added <= List.length extIn)%nat /\
    Forall (fun kv => fst kv <> "" /\ fst kv <> "read_only" /\
                      exists m, List.In m extIn /\
                                List.In (fst kv, value (snd kv)) m)
           added.
Proof.
  exists (flat_map contribution extIn). unfold updateExt. cbn [snd].
  rewrite updateExt_fold. split; [reflexivity |].
  induction extIn as [| m extIn (IH1 & IH2)]; [split; [cbn; lia | constructor] |].
  cbn [flat_map List.length]. destruct (contribution_names m) as [Hl Hf].
  split.
  - rewrite length_app. lia.
  - apply Forall_app. split.
    + eapply Forall_impl; [| exact Hf]. intros kv (H1 & H2 & H3).
      split; [exact H1 |]. split; [exact H2 |]. exists m. split; [left; reflexivity | exact H3].
    + eapply Forall_impl; [| exact IH2]. intros kv (H1 & H2 & m' & Hm & H3).
      split; [exact H1 |]. split; [exact H2 |]. exists m'. split; [right; exact Hm | exact H3].
Qed.

(** X18. For a map with unique keys and a single attribute, the translation
    does not depend on the order in which the map is iterated. *)
Theorem updateExt_ignores_entry_order m m' k v before after extOut :
  NoDup (map fst m) -> Permutation m m' ->
  List.In (k, v) m -> k <> "read_only" -> k <> "" ->
  (forall k' v', List.In (k', v') m -> k' = k \/ k' = "read_only") ->
  updateExt (before ++ m' :: after) extOut
    = updateExt (before ++ m :: after) extOut.
Proof.
  intros Hnd Hp Hin Hk Hne Hall.
  unfold updateExt. rewrite !updateExt_fold, !flat_map_app.
  cbn [flat_map]. do 4 f_equal.
  destruct (contribution_single m k v Hnd Hin Hk Hne Hall) as (ro & E & Hro).
  assert (Hnd' : NoDup (map fst m')).
  { eapply Permutation_NoDup; [| exact Hnd].
    apply Permutation_map, Hp. }
  assert (Hin' : List.In (k, v) m')
    by (eapply Permutation_in; eassumption).
  assert (Hall' : forall k' v', List.In (k', v') m' -> k' = k \/ k' = "read_only").
  { intros k' v' H. apply (Hall k' v').
    eapply Permutation_in; [apply Permutation_sym, Hp | exact H]. }
  destruct (contribution_single m' k v Hnd' Hin' Hk Hne Hall') as (ro' & E' & Hro').
  rewrite E, E'. do 3 f_equal.
  assert (Hiff : ro' = true <-> ro = true).
  { rewrite Hro, Hro'. split; intros H;
      (eapply Permutation_in; [| exact H]);
      [apply Permutation_sym, Hp | exact Hp]. }
  destruct ro, ro'; try reflexivity; destruct Hiff as [H1 H2];
    [discriminate (H2 eq_refl) | discriminate (H1 eq_refl)].
Qed.

Lemma cut_at_dot_label label domain :
  dotless label = true ->
  cut_at_dot (label +++ String "."%char domain) = label.
Proof.
  induction label as [| c label IH]; intros H; cbn [String.append cut_at_dot].
  - reflexivity.
  - cbn [dotless] in H. apply andb_true_iff in H. destruct H as [Hc Hl].
    apply negb_true_iff in Hc. rewrite Hc. f_equal. apply IH, Hl.
Qed.

(** X19. When the resolver answers with a qualified name [label.domain], the
    host name attached is [label]; when the name has no ['.'], host name
    and DNS name are the same. *)
Theorem hostname_is_first_label address a label domain ext :
  address <> "" -> inet_aton address = Some a -> dotless label = true ->
  (getnameinfo a = Some (label +++ String "."%char domain) ->
   snd (updateHostName address ext)
     = ext ++ [("dns.1", mkMapExtObj (label +++ String "."%char domain) false true);
               ("hostname", mkMapExtObj label false true)]) /\
  (getnameinfo a = Some label ->
   snd (updateHostName address ext)
     = ext ++ [("dns.1", mkMapExtObj label false true);
               ("hostname", mkMapExtObj label false true)]).
Proof.
  intros Hne Ha Hl. apply String.eqb_neq in Hne.
  unfold updateHostName. rewrite Hne, Ha. cbn [negb].
  split; intros Hn; rewrite Hn; cbn [snd update newMapExtObj];
    rewrite <- app_assoc; cbn [app].
  - rewrite cut_at_dot_label by exact Hl. reflexivity.
  - destruct (cut_at_dot_prefix label) as [_ [E | [rest E]]].
    + rewrite E. reflexivity.
    + exfalso. clear - Hl E. revert E Hl.
      generalize (cut_at_dot label) as pre. intros pre. revert label.
      induction pre as [| c pre IH]; intros label E Hl; subst label;
        cbn [String.append dotless] in Hl.
      * discriminate Hl.
      * apply andb_true_iff in Hl. destruct Hl as [_ Hl].
        apply (IH _ eq_refl Hl).
Qed.

(** X20. [init] creates the pool with a maximum that is never below the
    minimum.  When the bus cannot be initialised it reports the error and
    leaves the status as it was; otherwise the status is UNKNOWN with all
    counters and the progress at 0, and a [start] is accepted. *)
Theorem init_effect minThreads pollScanMax bus_init ad inp :
  let '(res, (lo, hi), ad') := init minThreads pollScanMax bus_init ad in
  lo = minThreads /\ hi = Z.max minThreads pollScanMax /\
  m_poolScan ad' = mkPool [] false /\
  match bus_init with
  | Unexpected e =>
      res = Unexpected ("Init bus error: " +++ e) /\
      m_statusDiscovery ad' = m_statusDiscovery ad
  | Ok _ =>
      res = Ok tt /\
      m_statusDiscovery ad' = mkStatus UNKNOWN 0 0 0 0 0 0 /\
      fst (start inp ad') = Ok tt
  end.
Proof.
  unfold init.
  assert (Hmax : (if pollScanMax <? minThreads then minThreads else pollScanMax)
                 = Z.max minThreads pollScanMax).
  { destruct (Z.ltb_spec pollScanMax minThreads); lia. }
  destruct bus_init as [[] | e]; repeat split; try exact Hmax.
Qed.

End ExtMore.

(* --------------------------------------------------------------------- *)
(** ** The further properties on the samples *)

Import MoreSamples.

Lemma start_dispatches_every_address_witness :
  tasks (m_poolScan (snd (start (env := sample_env) sample_request
                            (statusDiscoveryInit blank)))) = ["10.0.0.7"].
Proof.
  rewrite (start_dispatches_every_address (env := sample_env) sample_request
             (statusDiscoveryInit blank)); [reflexivity | discriminate].
Defined.

Lemma second_start_is_refused_witness :
  fst (start (env := sample_env) refused_request sample_object)
    = Unexpected "Scan in progress".
Proof.
  unfold sample_object.
  rewrite (second_start_is_refused (env := sample_env) sample_request
             refused_request (statusDiscoveryInit blank)); [reflexivity | discriminate].
Defined.

Lemma stop_then_stop_or_start_witness :
  state (m_statusDiscovery (snd (stop sample_object))) = CANCELLED_BY_USER /\
  fst (stop (snd (stop sample_object))) = Unexpected "No scan in progress".
Proof.
  destruct (stop_then_stop_or_start (env := sample_env) sample_request
              sample_object eq_refl) as (_ & H1 & _ & _ & _ & H2 & _).
  split; [exact H1 |]. rewrite H2. reflexivity.
Defined.

Lemma scanCheck_after_stop_witness :
  state (m_statusDiscovery (snd (scanCheck 0 (snd (stop sample_object)))))
    = TERMINATED.
Proof.
  destruct (scanCheck_after_stop (env := sample_env) sample_request 0
              sample_object eq_refl) as (_ & _ & H).
  destruct (H eq_refl) as [Hs _]. rewrite Hs. reflexivity.
Defined.

Lemma progress_within_bounds_witness :
  0 <= progress (m_statusDiscovery
                   (updateStatusDiscoveryProgress (env := env32)
                      (set_counts 1 5 blank))) <= 100.
Proof.
  destruct (progress_within_bounds (env := env32) (set_counts 1 5 blank))
    as (Hq & Hp).
  apply Hp. intros Hnz. apply Hq; vm_compute; intuition discriminate.
Defined.

Lemma scan_completes_one_address_witness :
  progress (m_statusDiscovery
              (obj (snd (scan (env := sample_env) "10.0.0.7"
                           (mkSW sample_object [])))))
    = 100 * (1 - (1 - 1)) / 1.
Proof.
  destruct (scan_completes_one_address (env := sample_env) "10.0.0.7"
              (mkSW sample_object [])) as (_ & _ & _ & _ & _ & _ & _ & H).
  apply H; vm_compute; intuition discriminate.
Defined.

Lemma progress_monotone_and_complete_witness :
  progress_value (env := sample_env) 3 2 <= progress_value (env := sample_env) 3 1.
Proof.
  apply (progress_monotone_and_complete (env := sample_env) 3 2 1);
    vm_compute; intuition discriminate.
Defined.

Lemma progress_clamped_after_underflow_witness :
  progress (m_statusDiscovery
              (updateStatusDiscoveryProgress (env := sample_env)
                 (set_counts 1 0 blank))) = 100.
Proof.
  apply (progress_clamped_after_underflow (env := sample_env)
           (set_counts 1 0 blank)); vm_compute; intuition discriminate.
Defined.

Lemma all_tasks_done_is_100_witness :
  progress (m_statusDiscovery
              (obj (snd (for_each (tasks (m_poolScan sample_object))
                           (scan (env := sample_env))
                           (mkSW sample_object [])))))
    = 100.
Proof.
  apply (all_tasks_done_is_100 (env := sample_env) sample_request
           (statusDiscoveryInit blank));
    vm_compute; intuition discriminate.
Defined.

Lemma empty_scan_ends_at_progress_0_witness :
  m_statusDiscovery
    (snd (scanCheck 0 (snd (start (env := sample_env) (empty_request IP)
                              (statusDiscoveryInit blank)))))
    = mkStatus TERMINATED 0 0 0 0 0 0.
Proof.
  apply (empty_scan_ends_at_progress_0 (env := sample_env) (empty_request IP)
           (statusDiscoveryInit blank)); [discriminate | reflexivity].
Defined.

Lemma scan_counts_accepted_publications_witness :
  discovered (m_statusDiscovery
                (obj (snd (scan (env := snmp_only_env) "10.0.0.7"
                             (mkSW sample_object [])))))
    = 0 + 2.
Proof.
  apply (scan_counts_accepted_publications (env := snmp_only_env) "10.0.0.7"
           sample_object); vm_compute; intuition discriminate.
Defined.

Lemma scan_without_success_tries_all_witness :
  log (snd (scan (env := sample_env) "10.0.0.7" (mkSW refused_object [])))
    = [Try (mkAssetsIn "10.0.0.7" "nut_xml_pdc" 80 "c1") false;
       Try (mkAssetsIn "10.0.0.7" "nut_snmp" 161 "c1") false].
Proof.
  rewrite (scan_without_success_tries_all (env := sample_env) "10.0.0.7"
             refused_object
             [Protocols.mkReturn "nut_powercom" 443 false (Some Protocols.No);
              Protocols.mkReturn "nut_xml_pdc" 80 true (Some Protocols.Yes);
              Protocols.mkReturn "nut_snmp" 161 true (Some Protocols.Maybe)]).
  - reflexivity.
  - reflexivity.
  - repeat constructor.
Defined.

Lemma scan_of_unreachable_host_witness :
  log (snd (scan (env := sample_env) "10.0.0.8" (mkSW sample_object []))) = [].
Proof.
  rewrite (scan_of_unreachable_host (env := sample_env) "10.0.0.8"
             sample_object "Host is not available"); reflexivity.
Defined.

Lemma scan_tries_only_reachable_protocols_witness :
  Forall (fun a => in_address a = "10.0.0.7")
         (tried (log (snd (scan (env := sample_env) "10.0.0.7"
                             (mkSW sample_object []))))).
Proof.
  eapply Forall_impl;
    [| apply (scan_tries_only_reachable_protocols (env := sample_env)
                "10.0.0.7" sample_object
                [Protocols.mkReturn "nut_powercom" 443 false (Some Protocols.No);
                 Protocols.mkReturn "nut_xml_pdc" 80 true (Some Protocols.Yes);
                 Protocols.mkReturn "nut_snmp" 161 true (Some Protocols.Maybe)]);
       reflexivity].
  intros a (H & _). exact H.
Defined.

Lemma timeoutConnect_verdict_witness :
  Protocols.errno
    (snd (Protocols.timeoutConnect slow_net "10.0.0.7" 161 Protocols.world0))
    = Protocols.ETIMEDOUT.
Proof.
  destruct (timeoutConnect_verdict slow_net "10.0.0.7" 161 Protocols.world0)
    as (_ & _ & H & _).
  apply H; [discriminate | reflexivity | reflexivity].
Defined.

Lemma trySnmp_stops_at_first_failed_write_witness :
  ProtocolsDefs.writes
    (Protocols.trace
       (snd (Protocols.trySnmp ProtocolsDefs.refusing_net
               (Protocols.mkIn "10.0.0.7" []) 161 Protocols.world0)))
    = 6%nat.
Proof.
  destruct (trySnmp_stops_at_first_failed_write ProtocolsDefs.refusing_net
              (Protocols.mkIn "10.0.0.7" []) 161 5 Protocols.world0)
    as [_ H].
  - reflexivity.
  - repeat constructor.
  - reflexivity.
  - intros j Hj. do 5 (destruct j as [| j]; [discriminate |]).
    lia.
  - rewrite H. reflexivity.
Defined.

Lemma run_unavailable_host_witness :
  Protocols.run_result dead_net (Protocols.mkIn "10.0.0.7" [])
    = Unexpected "Host is not available: 10.0.0.7".
Proof.
  unfold Protocols.run_result.
  apply (run_unavailable_host dead_net (Protocols.mkIn "10.0.0.7" []) []
           Protocols.world0); [discriminate | reflexivity].
Defined.

Lemma run_verdicts_witness :
  Protocols.run_result ProtocolsDefs.udp_only_net (Protocols.mkIn "10.0.0.7" [])
    = Ok [Protocols.mkReturn "nut_powercom" 443 false (Some Protocols.No);
          Protocols.mkReturn "nut_xml_pdc" 80 false (Some Protocols.No);
          Protocols.mkReturn "nut_snmp" 161 true (Some Protocols.Maybe)].
Proof.
  rewrite (run_verdicts ProtocolsDefs.udp_only_net (Protocols.mkIn "10.0.0.7" []));
    [reflexivity | discriminate | reflexivity].
Defined.

Lemma updateExt_ignores_entry_order_witness :
  updateExt [[("read_only", "true"); ("model", "9PX")]] []
    = updateExt [[("model", "9PX"); ("read_only", "true")]] [].
Proof.
  apply (updateExt_ignores_entry_order
           [("model", "9PX"); ("read_only", "true")]
           [("read_only", "true"); ("model", "9PX")] "model" "9PX" [] [] []).
  - repeat constructor; cbn; intuition discriminate.
  - apply perm_swap.
  - left. reflexivity.
  - discriminate.
  - discriminate.
  - intros k' v' [H | [H | []]]; inversion H; auto.
Defined.

Lemma hostname_is_first_label_witness :
  snd (updateHostName (env := sample_env) "10.0.0.7" [])
    = [("dns.1", mkMapExtObj "ups7.lab.example" false true);
       ("hostname", mkMapExtObj "ups7" false true)].
Proof.
  apply (proj1 (hostname_is_first_label (env := sample_env) "10.0.0.7"
                  167772167 "ups7" "lab.example" []
                  ltac:(discriminate) eq_refl eq_refl)).
  reflexivity.
Defined.

Section ProbeSpecFacts.
Import Protocols ProtocolsDefs ProbeNotions ProbeSpec.
Variable net : Net.














End ProbeSpecFacts.


(** With the filter ["nut_snmp"] only SNMP is probed and reported. *)
Example only_snmp_is_probed :
  fst (ProbeSpec.getProtocols ProtocolsDefs.udp_only_net
         (Protocols.mkIn "10.0.0.7" ["nut_snmp"]) Protocols.world0)
    = Ok [Protocols.mkReturn "nut_snmp" 161 true (Some Protocols.Maybe)] /\
  ProbeNotions.count_events ProbeNotions.is_http
    (Protocols.trace
       (snd (ProbeSpec.getProtocols ProtocolsDefs.udp_only_net
               (Protocols.mkIn "10.0.0.7" ["nut_snmp"]) Protocols.world0)))
    = 0%nat.
Proof. split; vm_compute; reflexivity. Qed.

